(** * Blog content pipeline of kana-dojo: the post loader and the sorter

    A shallow embedding of [features/Blog/lib/getBlogPosts.ts]
    ([getPostsDirectory], [parsePostFile], [getBlogPosts],
    [sortPostsByDate]) together with the parts of ECMAScript and Node the
    code calls ([Array.prototype.sort], [Array.prototype.filter], spread
    copies, [path.join], [path.basename], [fs.existsSync],
    [fs.readdirSync], [fs.readFileSync], [console.error]); of the index
    arithmetic and the class selection of the kana subset selector
    ([features/Kana/components/KanaCards/Subset.tsx]), with the Number
    operations it uses ([Array.prototype.slice], [Array.prototype.includes],
    [Array.from]); and of the date generator of the sorter's tests. *)

From Stdlib Require Import ZArith Ascii String.
From stdpp Require Import base option list strings gmap sorting pretty.

(* ===================================================================== *)
(** * Data model ([types/blog]) *)
(* ===================================================================== *)

(** Modelled from the spec: [Locale] is declared in [types/blog], which is
    not among the files verified here; the spec calls it "one of a small fixed
    enumerated set" with one default, and the tests name ['en'], ['es'] and
    ['ja'], with English as the fallback. *)
Inductive Locale : Type := en | es | ja.

Definition localeCode (lc : Locale) : string :=
  match lc with en => "en" | es => "es" | ja => "ja" end.

Definition DEFAULT_LOCALE : Locale := en.

Global Instance Locale_eq_dec : EqDecision Locale.
Proof. solve_decision. Defined.

(** The record [parsePostFile] builds. The casts [as string],
    [as Category], ... of the source are erased at run time, so a field
    taken from the frontmatter holds whatever the frontmatter holds:
    [None] stands for JavaScript's [undefined]. [slug], [readingTime] and
    [locale] are computed by the loader and always present. *)
Record BlogPostMeta : Type := {
  title : option string;
  description : option string;
  slug : string;
  publishedAt : option string;
  updatedAt : option string;
  author : option string;
  category : option string;
  tags : option (list string);
  featuredImage : option string;
  readingTime : Z;
  difficulty : option string;
  relatedPosts : option (list string);
  locale : Locale
}.

Global Instance BlogPostMeta_eq_dec : EqDecision BlogPostMeta.
Proof. solve_decision. Defined.

(** The [data] half of gray-matter's result: the frontmatter keys the
    loader reads. *)
Record Frontmatter : Type := {
  fm_title : option string;
  fm_description : option string;
  fm_publishedAt : option string;
  fm_updatedAt : option string;
  fm_author : option string;
  fm_category : option string;
  fm_tags : option (list string);
  fm_featuredImage : option string;
  fm_difficulty : option string;
  fm_relatedPosts : option (list string)
}.

Record ValidationResult : Type := {
  success : bool;
  missingFields : list string
}.

(* ===================================================================== *)
(** * ECMAScript: [Array.prototype.sort] *)
(* ===================================================================== *)

(** A comparator returns a Number; [None] stands for [NaN]. [SortCompare]
    is the specification's wrapper: a [NaN] result counts as [+0]. *)
Definition SortCompare {A} (comparefn : A → A → option Z) (x y : A) : Z :=
  default 0%Z (comparefn x y).

(** ** The sort of V8

    Node runs V8, whose [Array.prototype.sort] is TimSort
    ([third_party/v8/builtins/array-sort.tq]). An array of fewer than 64
    elements is one run: [CountAndMakeRun] finds the run the array starts
    with, and [BinaryInsertionSort] inserts the remaining elements into
    it one by one. Longer arrays are cut into such runs, which are then
    merged; the model sorts them as one run too. For a consistent
    comparator the standard fixes the result and the two agree (see
    [sortPostsByDate_unique]); for a comparator that is not consistent,
    which [compareByDate] is when some date does not parse, the model is
    V8's result for arrays of fewer than 64 elements. *)

(** The number of elements after [prev] that continue the run: in a
    descending run each element compares below its predecessor, in an
    ascending run none does. *)
Fixpoint count_run {A} (comparefn : A → A → option Z) (isDescending : bool)
    (prev : A) (l : list A) : nat :=
  match l with
  | [] => 0
  | current :: l' =>
      let order := SortCompare comparefn current prev in
      if (if isDescending then (0 <=? order)%Z else (order <? 0)%Z)
      then 0
      else S (count_run comparefn isDescending current l')
  end.

(** [CountAndMakeRun]: the run at the start of the array, reversed if it
    is a descending one, and the elements after it. *)
Definition CountAndMakeRun {A} (comparefn : A → A → option Z) (l : list A)
    : list A * list A :=
  match l with
  | elementHigh :: elementLow :: l' =>
      let isDescending := (SortCompare comparefn elementLow elementHigh <? 0)%Z in
      let runLength := 2 + count_run comparefn isDescending elementLow l' in
      let run := take runLength l in
      (if isDescending then reverse run else run, drop runLength l)
  | _ => (l, [])
  end.

(** The loop of [BinaryInsertionSort] that finds where the pivot goes:
    [mid = left + ((right - left) >> 1)], and the pivot goes to the left of
    [mid] only if it compares below the element there. The fuel bounds
    the number of rounds; [right - left] is enough. *)
Fixpoint BinarySearch {A} (comparefn : A → A → option Z) (pivot : A)
    (arr : list A) (left right fuel : nat) : nat :=
  match fuel with
  | 0 => left
  | S fuel' =>
      if bool_decide (left < right) then
        let mid := left + (right - left) / 2 in
        match arr !! mid with
        | Some element =>
            if (SortCompare comparefn pivot element <? 0)%Z
            then BinarySearch comparefn pivot arr left mid fuel'
            else BinarySearch comparefn pivot arr (S mid) right fuel'
        | None => left
        end
      else left
  end.

(** One round of [BinaryInsertionSort]: the pivot, which follows the
    sorted part, is moved to its place in it. *)
Definition binary_insert {A} (comparefn : A → A → option Z) (arr : list A)
    (pivot : A) : list A :=
  let left := BinarySearch comparefn pivot arr 0 (length arr) (length arr) in
  take left arr ++ pivot :: drop left arr.

Definition BinaryInsertionSort {A} (comparefn : A → A → option Z)
    (run rest : list A) : list A :=
  foldl (binary_insert comparefn) run rest.

Definition array_sort {A} (comparefn : A → A → option Z) (l : list A)
    : list A :=
  let '(run, rest) := CountAndMakeRun comparefn l in
  BinaryInsertionSort comparefn run rest.

(* ===================================================================== *)
(** * The sorter *)
(* ===================================================================== *)

Section SorterDefs.
(** [Date_getTime s] is [new Date(s).getTime()]: milliseconds since the
    epoch, [None] for an Invalid Date, whose time value is [NaN]. *)
Variable Date_getTime : string → option Z.

(** [new Date(p.publishedAt).getTime()]; [new Date(undefined)] is an
    Invalid Date. *)
Definition getTime (p : BlogPostMeta) : option Z :=
  publishedAt p ≫= Date_getTime.

(** The arrow function passed to [sort]: [dateB - dateA], [NaN] as soon
    as one side is. Time values are integers of magnitude at most
    8.64e15, so the double subtraction has the sign of the exact one. *)
Definition compareByDate (a b : BlogPostMeta) : option Z :=
  dateA ← getTime a; dateB ← getTime b; Some (dateB - dateA)%Z.

(** [[...posts].sort(...)], on the contents of the array. *)
Definition sortPostsByDate (posts : list BlogPostMeta) : list BlogPostMeta :=
  array_sort compareByDate posts.

(** [a >= b] on the two time values, false when one is [NaN]. *)
Definition date_ge (a b : BlogPostMeta) : Prop :=
  match getTime a, getTime b with
  | Some ta, Some tb => (tb ≤ ta)%Z
  | _, _ => False
  end.

(** [a < b] on the two time values, false when one is [NaN]. *)
Definition date_lt (a b : BlogPostMeta) : Prop :=
  match getTime a, getTime b with
  | Some ta, Some tb => (ta < tb)%Z
  | _, _ => False
  end.

(** Every element is at least as recent as its successor. *)
Definition descending (l : list BlogPostMeta) : Prop :=
  ∀ i a b, l !! i = Some a → l !! S i = Some b → date_ge a b.

Definition valid_date (p : BlogPostMeta) : Prop := is_Some (getTime p).

(** The records published at time [d]. *)
Definition dated (d : Z) (l : list BlogPostMeta) : list BlogPostMeta :=
  filter (λ p, getTime p = Some d) l.
End SorterDefs.

(* ===================================================================== *)
(** * Arrays as objects: the spread copy and the in-place sort *)
(* ===================================================================== *)

(** A JavaScript array is an object with an identity. The heap maps array
    references to their contents; the records inside are never written
    to by this code, so they are kept as values. *)
Abbreviation Heap := (gmap positive (list BlogPostMeta)).

(** [[...posts]]: a new array, at a reference not in use, with the
    elements of [posts]. [None]: [posts] is not an array of the heap. *)
Definition spread (posts : positive) (h : Heap) : option (positive * Heap) :=
  l ← h !! posts;
  let r := fresh (dom h) in
  Some (r, <[r := l]> h).

(** [arr.sort(comparefn)]: sorts [arr] in place and returns [arr]. *)
Definition sort_in_place (comparefn : BlogPostMeta → BlogPostMeta → option Z)
    (arr : positive) (h : Heap) : option (positive * Heap) :=
  l ← h !! arr;
  Some (arr, <[arr := array_sort comparefn l]> h).

(** [sortPostsByDate] on references: [[...posts].sort(...)]. *)
Definition sortPostsByDate_heap (Date_getTime : string → option Z)
    (posts : positive) (h : Heap) : option (positive * Heap) :=
  '(copy, h1) ← spread posts h;
  sort_in_place (compareByDate Date_getTime) copy h1.

(* ===================================================================== *)
(** * Node: [path] *)
(* ===================================================================== *)

Definition is_slash (c : ascii) : bool := bool_decide (c = "/"%char).

Fixpoint drop_while {A} (f : A → bool) (l : list A) : list A :=
  match l with
  | [] => []
  | x :: l' => if f x then drop_while f l' else l
  end.

Fixpoint take_while {A} (f : A → bool) (l : list A) : list A :=
  match l with
  | [] => []
  | x :: l' => if f x then x :: take_while f l' else []
  end.

(** [String.prototype.endsWith]. *)
Definition endsWith (s ending : string) : bool :=
  bool_decide (list_ascii_of_string ending `suffix_of` list_ascii_of_string s).

(** [path.join] of two segments, on the arguments it gets here: a
    normalized directory and a relative path without [.] or [..] segments.
    An empty first segment is dropped and no slash is doubled. *)
Definition path_join (dir rest : string) : string :=
  if bool_decide (dir = "") then rest
  else if endsWith dir "/" then dir +:+ rest
  else dir +:+ "/" +:+ rest.

(** The last segment of a path, trailing slashes ignored. *)
Definition last_segment (path : list ascii) : list ascii :=
  reverse (take_while (λ c, negb (is_slash c))
             (drop_while is_slash (reverse path))).

(** [path.basename(path, ext)] (POSIX), for an [ext] without a slash. Node
    removes [ext] from the end of the last segment, except when the
    segment is [ext] itself: [path.basename('aaa/bbb', 'bbb')] is ['bbb'],
    while [path.basename('a', 'a')], where [ext] is the whole path, is
    the empty string. *)
Definition path_basename (path ext : string) : string :=
  if bool_decide (ext = path) then ""
  else
    let seg := last_segment (list_ascii_of_string path) in
    let e := list_ascii_of_string ext in
    if bool_decide (e `suffix_of` seg ∧ e ≠ seg)
    then string_of_list_ascii (take (length seg - length e) seg)
    else string_of_list_ascii seg.

(** [Array.prototype.join]. *)
Fixpoint array_join (sep : string) (l : list string) : string :=
  match l with
  | [] => ""
  | [x] => x
  | x :: l' => x +:+ sep +:+ array_join sep l'
  end.

(* ===================================================================== *)
(** * Node: [fs], exceptions and the console *)
(* ===================================================================== *)

(** The file system snapshot at call time: what is found at each path. A
    directory lists its entries in the order [readdirSync] reports them. *)
Inductive Inode : Type :=
  | Directory (entries : list string)
  | RegularFile (content : string).

Abbreviation FileSystem := (gmap string Inode).

(** Directory entries are names: not empty and without a slash. *)
Definition entry_name (name : string) : Prop :=
  name ≠ "" ∧ "/"%char ∉ list_ascii_of_string name.

Definition wf_inode (node : Inode) : Prop :=
  match node with
  | Directory entries => Forall entry_name entries
  | RegularFile _ => True
  end.

Definition wf_fs (fs : FileSystem) : Prop :=
  map_Forall (λ _ node, wf_inode node) fs.

Global Instance entry_name_dec name : Decision (entry_name name).
Proof. unfold entry_name. apply _. Defined.

Global Instance wf_inode_dec node : Decision (wf_inode node).
Proof. destruct node; simpl; apply _. Defined.

Global Instance wf_fs_dec fs : Decision (wf_fs fs).
Proof. unfold wf_fs. apply _. Defined.

Inductive Error : Type :=
  | ENOENT (path : string)
  | ENOTDIR (path : string)
  | EISDIR (path : string)
  | YAMLException (source : string).

(** How a call ends: with a value or with a thrown exception. *)
Inductive Completion (A : Type) : Type :=
  | Normal (a : A)
  | Throw (e : Error).
Arguments Normal {A} a.
Arguments Throw {A} e.

(** One call of [console.error]: the message and the error object passed
    after it, if any. *)
Inductive ConsoleLine : Type :=
  | ErrorLine (message : string) (detail : option Error).

(** Code that may throw and may write to the console; the state is what
    has been written so far. *)
Definition IO (A : Type) : Type :=
  list ConsoleLine → Completion A * list ConsoleLine.

Global Instance IO_ret : MRet IO := λ A a out, (Normal a, out).

Global Instance IO_bind : MBind IO := λ A B f m out,
  match m out with
  | (Normal a, out') => f a out'
  | (Throw e, out') => (Throw e, out')
  end.

Definition lift {A} (r : Completion A) : IO A := λ out, (r, out).

Definition try_catch {A} (body : IO A) (handler : Error → IO A) : IO A :=
  λ out,
    match body out with
    | (Normal a, out') => (Normal a, out')
    | (Throw e, out') => handler e out'
    end.

Definition console_error (message : string) (detail : option Error) : IO unit :=
  λ out, (Normal (), out ++ [ErrorLine message detail]).

(** [Array.prototype.map] with a callback that has effects: left to
    right, stopping at the first exception. *)
Fixpoint array_map {A B} (f : A → IO B) (l : list A) : IO (list B) :=
  match l with
  | [] => mret []
  | x :: l' => y ← f x; ys ← array_map f l'; mret (y :: ys)
  end.

Definition existsSync (fs : FileSystem) (path : string) : bool :=
  bool_decide (is_Some (fs !! path)).

Definition readdirSync (fs : FileSystem) (path : string)
    : Completion (list string) :=
  match fs !! path with
  | Some (Directory entries) => Normal entries
  | Some (RegularFile _) => Throw (ENOTDIR path)
  | None => Throw (ENOENT path)
  end.

Definition readFileSync (fs : FileSystem) (path : string) : Completion string :=
  match fs !! path with
  | Some (RegularFile content) => Normal content
  | Some (Directory _) => Throw (EISDIR path)
  | None => Throw (ENOENT path)
  end.

(* ===================================================================== *)
(** * The post loader *)
(* ===================================================================== *)

Definition CONTENT_BASE_PATH : string := "features/Blog/content/posts".

Section LoaderDefs.
(** [process.cwd()]. *)
Variable cwd : string.
(** The file system the call sees. *)
Variable fs : FileSystem.
(** gray-matter: the frontmatter and the body of a file, or the
    exception of its YAML parser. *)
Variable matter : string → Completion (Frontmatter * string).
(** [./validateFrontmatter] and [./calculateReadingTime] are imported
    from files that are not among the files verified here; the loader is
    modelled for any two such functions. *)
Variable validateFrontmatter : Frontmatter → ValidationResult.
Variable calculateReadingTime : string → Z.
Variable Date_getTime : string → option Z.

Definition getPostsDirectory (lc : Locale) : string :=
  path_join (path_join cwd CONTENT_BASE_PATH) (localeCode lc).

Definition parsePostFile (filePath : string) (lc : Locale)
    : IO (option BlogPostMeta) :=
  try_catch
    (fileContent ← lift (readFileSync fs filePath);
     '(frontmatter, content) ← lift (matter fileContent);
     let validation := validateFrontmatter frontmatter in
     if negb (success validation) then
       console_error
         ("Invalid frontmatter in " +:+ filePath +:+ ": missing fields "
            +:+ array_join ", " (missingFields validation)) None;;
       mret None
     else
       let slug := path_basename filePath ".mdx" in
       let readingTime := calculateReadingTime content in
       mret (Some {|
         title := fm_title frontmatter;
         description := fm_description frontmatter;
         slug := slug;
         publishedAt := fm_publishedAt frontmatter;
         updatedAt := fm_updatedAt frontmatter;
         author := fm_author frontmatter;
         category := fm_category frontmatter;
         tags := fm_tags frontmatter;
         featuredImage := fm_featuredImage frontmatter;
         readingTime := readingTime;
         difficulty := fm_difficulty frontmatter;
         relatedPosts := fm_relatedPosts frontmatter;
         locale := lc
       |}))
    (λ error,
       console_error ("Error parsing post file " +:+ filePath +:+ ":")
         (Some error);;
       mret None).

(** [getBlogPosts(locale)]; a call without argument is a call with
    ['en']. *)
Definition getBlogPosts (lc : Locale) : IO (list BlogPostMeta) :=
  let postsDirectory := getPostsDirectory lc in
  if negb (existsSync fs postsDirectory) then mret []
  else
    entries ← lift (readdirSync fs postsDirectory);
    let files := filter (λ file, endsWith file ".mdx") entries in
    parsed ← array_map
      (λ file, parsePostFile (path_join postsDirectory file) lc) files;
    let posts := omap id parsed in
    mret (sortPostsByDate Date_getTime posts).

(** What one content file contributes: the record, or nothing and one
    line on the console. *)
Inductive file_outcome (filePath : string) (lc : Locale)
    : option BlogPostMeta → list ConsoleLine → Prop :=
  | outcome_unreadable e :
      readFileSync fs filePath = Throw e →
      file_outcome filePath lc None
        [ErrorLine ("Error parsing post file " +:+ filePath +:+ ":") (Some e)]
  | outcome_unparsable fileContent e :
      readFileSync fs filePath = Normal fileContent →
      matter fileContent = Throw e →
      file_outcome filePath lc None
        [ErrorLine ("Error parsing post file " +:+ filePath +:+ ":") (Some e)]
  | outcome_invalid fileContent frontmatter content :
      readFileSync fs filePath = Normal fileContent →
      matter fileContent = Normal (frontmatter, content) →
      success (validateFrontmatter frontmatter) = false →
      file_outcome filePath lc None
        [ErrorLine
           ("Invalid frontmatter in " +:+ filePath +:+ ": missing fields "
              +:+ array_join ", "
                    (missingFields (validateFrontmatter frontmatter)))
           None]
  | outcome_post fileContent frontmatter content p :
      readFileSync fs filePath = Normal fileContent →
      matter fileContent = Normal (frontmatter, content) →
      success (validateFrontmatter frontmatter) = true →
      title p = fm_title frontmatter →
      description p = fm_description frontmatter →
      publishedAt p = fm_publishedAt frontmatter →
      updatedAt p = fm_updatedAt frontmatter →
      author p = fm_author frontmatter →
      category p = fm_category frontmatter →
      tags p = fm_tags frontmatter →
      featuredImage p = fm_featuredImage frontmatter →
      difficulty p = fm_difficulty frontmatter →
      relatedPosts p = fm_relatedPosts frontmatter →
      readingTime p = calculateReadingTime content →
      slug p = path_basename filePath ".mdx" →
      locale p = lc →
      file_outcome filePath lc (Some p) [].

(** Modelled from the spec: the path of the file of a slug, "each file
    name (minus extension) is the post's slug"; the helper is part of
    [lib/getBlogPost], of which only the tests are available. *)
Definition getPostFilePath (lc : Locale) (slug : string) : string :=
  path_join (getPostsDirectory lc) (slug +:+ ".mdx").

(** Modelled from the spec: [postExists], from [lib/getBlogPost], is a
    "boolean existence check against the locale directory only, no
    fallback". *)
Definition postExists (lc : Locale) (slug : string) : bool :=
  existsSync fs (getPostFilePath lc slug).

(** Modelled from the spec: [getBlogPost], from [lib/getBlogPost], "checks
    whether a post with the given slug exists in the requested locale's
    directory. If yes, parses and returns it with its locale field set to
    the requested locale. If no, checks the default locale's directory; if
    found there, returns it with locale set to default. If found in
    neither, returns null". Parsing is the loader's [parsePostFile]. *)
Definition getBlogPost (slug : string) (lc : Locale)
    : IO (option BlogPostMeta) :=
  if postExists lc slug then
    parsePostFile (getPostFilePath lc slug) lc
  else if postExists DEFAULT_LOCALE slug then
    parsePostFile (getPostFilePath DEFAULT_LOCALE slug) DEFAULT_LOCALE
  else mret None.
End LoaderDefs.

(* ===================================================================== *)
(** * Instances used in the worked examples *)
(* ===================================================================== *)

(** ** Dates: the date-only form of the ECMAScript date-time format *)

Definition digit (c : ascii) : option Z :=
  let n := Z.of_nat (nat_of_ascii c) in
  if ((48 <=? n) && (n <=? 57))%Z then Some (n - 48)%Z else None.

Definition isLeapYear (y : Z) : bool :=
  ((y mod 4 =? 0) && (negb (y mod 100 =? 0) || (y mod 400 =? 0)))%Z.

Definition daysInMonth (y m : Z) : Z :=
  (if m =? 2 then (if isLeapYear y then 29 else 28)
   else if (m =? 4) || (m =? 6) || (m =? 9) || (m =? 11) then 30
   else 31)%Z.

(** Days from 1970-01-01 to the given day of the proleptic Gregorian
    calendar. *)
Definition daysFromCivil (y m d : Z) : Z :=
  (let y' := if m <=? 2 then y - 1 else y in
   let era := y' / 400 in
   let yoe := y' - era * 400 in
   let mp := (m + 9) mod 12 in
   let doy := (153 * mp + 2) / 5 + d - 1 in
   let doe := yoe * 365 + yoe / 4 - yoe / 100 + doy in
   era * 146097 + doe - 719468)%Z.

Definition msPerDay : Z := 86400000.

(** [new Date(s).getTime()] for [s] of the form [YYYY-MM-DD], which the
    standard reads as midnight UTC of that day. What an engine makes of
    other strings is up to it; here they are Invalid Dates, as they are in
    every engine for the strings of the examples below. *)
Definition isoDate_getTime (s : string) : option Z :=
  match list_ascii_of_string s with
  | [y1; y2; y3; y4; dash1; m1; m2; dash2; d1; d2] =>
      if bool_decide (dash1 = "-"%char ∧ dash2 = "-"%char) then
        a ← digit y1; b ← digit y2; c ← digit y3; d ← digit y4;
        e ← digit m1; f ← digit m2; g ← digit d1; h ← digit d2;
        let y := (1000 * a + 100 * b + 10 * c + d)%Z in
        let m := (10 * e + f)%Z in
        let dd := (10 * g + h)%Z in
        if ((1 <=? m) && (m <=? 12) && (1 <=? dd) && (dd <=? daysInMonth y m))%Z
        then Some (daysFromCivil y m dd * msPerDay)%Z
        else None
      else None
  | _ => None
  end.

(** ** The validator and the reading-time estimator *)

Definition present (field : option string) : bool :=
  match field with
  | Some s => negb (bool_decide (s = ""))
  | None => false
  end.

(** Modelled from the spec: [validateFrontmatter] is in
    [lib/validateFrontmatter], not among the files verified here. The spec:
    the required fields are title, description, publishedAt, author,
    category and tags; "for each required field, flags it missing if the
    field is absent or value is empty/undefined"; success when none is
    missing. A list of tags counts as a value whenever it is given. *)
Definition validateFrontmatter_spec (frontmatter : Frontmatter)
    : ValidationResult :=
  let missing :=
    (if present (fm_title frontmatter) then [] else ["title"]) ++
    (if present (fm_description frontmatter) then [] else ["description"]) ++
    (if present (fm_publishedAt frontmatter) then [] else ["publishedAt"]) ++
    (if present (fm_author frontmatter) then [] else ["author"]) ++
    (if present (fm_category frontmatter) then [] else ["category"]) ++
    (if bool_decide (is_Some (fm_tags frontmatter)) then [] else ["tags"]) in
  {| success := bool_decide (missing = []); missingFields := missing |}.

(** Modelled from the spec: [calculateReadingTime] is in
    [lib/calculateReadingTime], not among the files verified here. The
    spec: "splits on whitespace to count words, divides by a fixed
    words-per-minute constant, rounds up to the nearest whole minute, with
    a floor of 1 minute". The constant is a parameter. *)
Definition calculateReadingTime_spec (wordsPerMinute : Z) (content : string)
    : Z :=
  let words := Z.of_nat (length (String.words content)) in
  Z.max 1 ((words + wordsPerMinute - 1) / wordsPerMinute).

(** ** gray-matter on the files of the examples *)

Definition LF : string := String "010"%char "".

Definition no_frontmatter : Frontmatter :=
  {| fm_title := None; fm_description := None; fm_publishedAt := None;
     fm_updatedAt := None; fm_author := None; fm_category := None;
     fm_tags := None; fm_featuredImage := None; fm_difficulty := None;
     fm_relatedPosts := None |}.

(** A content file with the given title and date lines between the
    fences. *)
Definition mdx_file (titleLine dateLine : list string) : string :=
  array_join LF
    (["---"] ++ titleLine ++
     ["description: A note on kana"] ++ dateLine ++
     ["author: Dojo"; "category: hiragana"; "tags: [kana]"; "---";
      "Learn the first row."]).

Definition full_frontmatter (t : option string) (d : option string)
    : Frontmatter :=
  {| fm_title := t; fm_description := Some "A note on kana";
     fm_publishedAt := d; fm_updatedAt := None; fm_author := Some "Dojo";
     fm_category := Some "hiragana"; fm_tags := Some ["kana"];
     fm_featuredImage := None; fm_difficulty := None;
     fm_relatedPosts := None |}.

Definition older_mdx : string :=
  mdx_file ["title: Older"] ["publishedAt: '2024-01-01'"].
Definition undated_mdx : string :=
  mdx_file ["title: Undated"] ["publishedAt: soon"].
Definition newer_mdx : string :=
  mdx_file ["title: Newer"] ["publishedAt: '2024-01-02'"].
Definition untitled_mdx : string :=
  mdx_file [] ["publishedAt: '2024-02-01'"].
Definition broken_mdx : string :=
  mdx_file ["title: [Broken"] ["publishedAt: '2024-03-01'"].

(** What gray-matter returns for each of these files: the keys between
    the fences and the text after them; [broken_mdx] opens a YAML sequence
    that it never closes, and the parser throws. A file that does not
    start with the fence has no frontmatter and is all content. *)
Definition example_matter (fileContent : string)
    : Completion (Frontmatter * string) :=
  if bool_decide (fileContent = older_mdx) then
    Normal (full_frontmatter (Some "Older") (Some "2024-01-01"),
            "Learn the first row.")
  else if bool_decide (fileContent = undated_mdx) then
    Normal (full_frontmatter (Some "Undated") (Some "soon"),
            "Learn the first row.")
  else if bool_decide (fileContent = newer_mdx) then
    Normal (full_frontmatter (Some "Newer") (Some "2024-01-02"),
            "Learn the first row.")
  else if bool_decide (fileContent = untitled_mdx) then
    Normal (full_frontmatter None (Some "2024-02-01"),
            "Learn the first row.")
  else if bool_decide (fileContent = broken_mdx) then
    Throw (YAMLException fileContent)
  else Normal (no_frontmatter, fileContent).

(** ** File systems and records *)

Definition example_cwd : string := "/srv/kana-dojo".

Definition posts_en : string :=
  "/srv/kana-dojo/features/Blog/content/posts/en".

(** The entries of the English directory of [example_fs], in the order of
    their names. *)
Definition example_entries : list string :=
  ["01-older.mdx"; "02-undated.mdx"; "03-newer.mdx"; "04-untitled.mdx";
   "05-broken.mdx"; "06-drafts.mdx"; "README.md"].

(** An English directory with three good files, one of them with a date
    that is no date, two bad files, a subdirectory whose name ends in
    [.mdx], and a file of another kind. *)
Definition example_fs : FileSystem :=
  list_to_map [
    (posts_en, Directory example_entries);
    (posts_en +:+ "/01-older.mdx", RegularFile older_mdx);
    (posts_en +:+ "/02-undated.mdx", RegularFile undated_mdx);
    (posts_en +:+ "/03-newer.mdx", RegularFile newer_mdx);
    (posts_en +:+ "/04-untitled.mdx", RegularFile untitled_mdx);
    (posts_en +:+ "/05-broken.mdx", RegularFile broken_mdx);
    (posts_en +:+ "/06-drafts.mdx", Directory []);
    (posts_en +:+ "/README.md", RegularFile "Posts live here.")
  ].

(** An English directory where every file is good and dated. *)
Definition dated_fs : FileSystem :=
  list_to_map [
    (posts_en, Directory ["01-older.mdx"; "03-newer.mdx"]);
    (posts_en +:+ "/01-older.mdx", RegularFile older_mdx);
    (posts_en +:+ "/03-newer.mdx", RegularFile newer_mdx)
  ].

(** A directory whose only file is named [.mdx]. *)
Definition dotfile_fs : FileSystem :=
  list_to_map [
    (posts_en, Directory [".mdx"]);
    (posts_en +:+ "/.mdx", RegularFile older_mdx)
  ].

(** A directory with a file named [.mdx] and a file named [.mdx.mdx]. *)
Definition dotfiles_fs : FileSystem :=
  list_to_map [
    (posts_en, Directory [".mdx"; ".mdx.mdx"]);
    (posts_en +:+ "/.mdx", RegularFile older_mdx);
    (posts_en +:+ "/.mdx.mdx", RegularFile newer_mdx)
  ].

Definition example_post (t slug_ : string) (d : string) : BlogPostMeta :=
  {| title := Some t; description := Some "A note on kana"; slug := slug_;
     publishedAt := Some d; updatedAt := None; author := Some "Dojo";
     category := Some "hiragana"; tags := Some ["kana"];
     featuredImage := None; readingTime := 1; difficulty := None;
     relatedPosts := None; locale := en |}.

Definition older_post : BlogPostMeta := example_post "Older" "01-older" "2024-01-01".
Definition undated_post : BlogPostMeta := example_post "Undated" "02-undated" "soon".
Definition newer_post : BlogPostMeta := example_post "Newer" "03-newer" "2024-01-02".

(** Seven records; the date of three of them is no date, and the fifth
    and the seventh are of the same day. *)
Definition draft_a : BlogPostMeta := example_post "Draft A" "draft-a" "soon".
Definition draft_b : BlogPostMeta := example_post "Draft B" "draft-b" "soon".
Definition draft_c : BlogPostMeta := example_post "Draft C" "draft-c" "soon".
Definition first_row : BlogPostMeta :=
  example_post "First row" "first-row" "2024-01-01".
Definition second_row : BlogPostMeta :=
  example_post "Second row" "second-row" "2024-01-02".
Definition ninth_row : BlogPostMeta :=
  example_post "Ninth row" "ninth-row" "2024-01-09".
Definition second_row_again : BlogPostMeta :=
  example_post "Second row again" "second-row-again" "2024-01-02".

Definition mixed_posts : list BlogPostMeta :=
  [draft_a; draft_b; first_row; draft_c; second_row; ninth_row;
   second_row_again].

(** A file where the English directory should be. *)
Definition blocked_fs : FileSystem :=
  {[ posts_en := RegularFile "not a directory" ]}.

(** A heap with one array. *)
Definition example_heap : Heap := {[ 1%positive := [older_post; newer_post] ]}.

(** The loader of the examples. *)
Definition example_getBlogPosts (fs : FileSystem) (lc : Locale)
    : IO (list BlogPostMeta) :=
  getBlogPosts example_cwd fs example_matter validateFrontmatter_spec
    (calculateReadingTime_spec 200) isoDate_getTime lc.

(* ===================================================================== *)
(** * ECMAScript: Numbers *)
(* ===================================================================== *)

(** What [ToIntegerOrInfinity] returns. *)
Inductive IntegerOrInfinity : Type :=
  | NegativeInfinity
  | Integer (z : Z)
  | PositiveInfinity.

(** The Numbers of ECMAScript are the IEEE 754 doubles. The subset
    selector adds and subtracts them, takes them as the bounds of a slice
    and as the length of an array, and searches an array for them: these
    operations are the interface. [of_Z z] is the Number whose value is
    the integer [z]; [NaN] is what [undefined] converts to. *)
Class NumberOps (Number : Type) : Type := {
  NaN : Number;
  of_Z : Z → Number;
  Number_add : Number → Number → Number;
  Number_subtract : Number → Number → Number;
  ToIntegerOrInfinity : Number → IntegerOrInfinity;
  SameValueZero : Number → Number → bool
}.

Definition MAX_SAFE_INTEGER : Z := 2 ^ 53 - 1.

Definition safe_integer (z : Z) : Prop :=
  (- MAX_SAFE_INTEGER ≤ z ≤ MAX_SAFE_INTEGER)%Z.

(** What the doubles satisfy on the safe integers and on [NaN]: a sum or
    a difference of safe integers that is a safe integer is exact; an
    operation on [NaN] gives [NaN]; a safe integer is its own integral
    part, and that of [NaN] is zero; every Number, [NaN] too, is the same
    value as itself. Nothing is said of fractions, of infinities, or of
    integers beyond the safe ones. *)
Class NumberLaws (Number : Type) `{NumberOps Number} : Prop := {
  Number_add_of_Z a b :
    safe_integer a → safe_integer b → safe_integer (a + b) →
    Number_add (of_Z a) (of_Z b) = of_Z (a + b);
  Number_subtract_of_Z a b :
    safe_integer a → safe_integer b → safe_integer (a - b) →
    Number_subtract (of_Z a) (of_Z b) = of_Z (a - b);
  Number_add_NaN x : Number_add x NaN = NaN;
  Number_subtract_NaN x : Number_subtract x NaN = NaN;
  ToIntegerOrInfinity_of_Z a :
    safe_integer a → ToIntegerOrInfinity (of_Z a) = Integer a;
  ToIntegerOrInfinity_NaN : ToIntegerOrInfinity NaN = Integer 0;
  SameValueZero_same x : SameValueZero x x = true
}.

Section NumberDefs.
Context `{NumberOps Number}.

(** [ToNumber] of an array element read by index: an index that is out
    of range reads [undefined] ([None]), which converts to [NaN]. *)
Definition ToNumber (v : option Number) : Number := default NaN v.

Definition ToLength (n : Number) : Z :=
  match ToIntegerOrInfinity n with
  | NegativeInfinity => 0
  | Integer len => if (len <=? 0)%Z then 0%Z else Z.min len MAX_SAFE_INTEGER
  | PositiveInfinity => MAX_SAFE_INTEGER
  end.

(** A bound of [Array.prototype.slice] on an array of length [len]:
    negative arguments count from the end, and everything is clamped to
    the array. *)
Definition slice_bound (len : Z) (relative : IntegerOrInfinity) : Z :=
  match relative with
  | NegativeInfinity => 0
  | Integer r => if (r <? 0)%Z then Z.max (len + r) 0 else Z.min r len
  | PositiveInfinity => len
  end.

(** [arr.slice(start, finish)]. A start that is [undefined] converts to
    [NaN], whose integral part is zero; an end that is [undefined]
    stands for the length of the array. *)
Definition array_slice {A} (arr : list A) (start finish : option Number)
    : list A :=
  let len := Z.of_nat (length arr) in
  let k := slice_bound len (ToIntegerOrInfinity (ToNumber start)) in
  let final :=
    match finish with
    | Some e => slice_bound len (ToIntegerOrInfinity e)
    | None => len
    end in
  take (Z.to_nat (final - k)) (drop (Z.to_nat k) arr).

(** [arr.includes(searchElement)]. *)
Definition array_includes (arr : list Number) (searchElement : Number)
    : bool :=
  existsb (λ element, SameValueZero element searchElement) arr.

(** [Array.from({ length }, mapfn)], with a [mapfn] that looks at the
    index only: [None] when the construction of the array throws a
    [RangeError], which it does for a length beyond [2^32 - 1]. *)
Definition Array_from (length_ : Number) (mapfn : Number → Number)
    : option (list Number) :=
  let len := ToLength length_ in
  if (2 ^ 32 - 1 <? len)%Z then None
  else Some ((λ k, mapfn (of_Z k)) <$> seqZ 0 len).
End NumberDefs.

(** The integers and [NaN] with exact arithmetic: the Numbers of the
    examples. *)
Inductive ExactNumber : Type :=
  | ExactNaN
  | Exact (z : Z).

Global Instance ExactNumber_eq_dec : EqDecision ExactNumber.
Proof. solve_decision. Defined.

Global Instance ExactNumber_ops : NumberOps ExactNumber := {|
  NaN := ExactNaN;
  of_Z := Exact;
  Number_add x y :=
    match x, y with Exact a, Exact b => Exact (a + b) | _, _ => ExactNaN end;
  Number_subtract x y :=
    match x, y with Exact a, Exact b => Exact (a - b) | _, _ => ExactNaN end;
  ToIntegerOrInfinity x :=
    match x with Exact a => Integer a | ExactNaN => Integer 0 end;
  SameValueZero x y := bool_decide (x = y)
|}.

(* ===================================================================== *)
(** * The subset selector ([features/Kana/components/KanaCards/Subset]) *)
(* ===================================================================== *)

Section SubsetIndexDefs.
Context `{NumberOps Number}.
(** The table of kana groups is imported from [@/features/Kana/data/kana],
    which is not among the files verified here: the table and the type of
    its rows are parameters. *)
Context {KanaGroup : Type}.
Variable kana : list KanaGroup.
(** The prop [sliceRange], an array of Numbers. *)
Variable sliceRange : list Number.
(** [state.kanaGroupIndices] of the kana store. *)
Variable kanaGroupIndices : list Number.

Definition kanaGroups : list KanaGroup :=
  array_slice kana (sliceRange !! 0) (sliceRange !! 1).

Definition getGlobalIndex (localIndex : Number) : Number :=
  Number_add localIndex (ToNumber (sliceRange !! 0)).

Definition isChecked (localIndex : Number) : bool :=
  array_includes kanaGroupIndices (getGlobalIndex localIndex).

(** The array [selectAllInSubset] hands to [addKanaGroupIndices] after
    [playClick()]; [None] when [Array.from] throws. *)
Definition selectAllInSubset : option (list Number) :=
  Array_from
    (Number_subtract (ToNumber (sliceRange !! 1)) (ToNumber (sliceRange !! 0)))
    (λ i, Number_add (ToNumber (sliceRange !! 0)) i).
End SubsetIndexDefs.

Section SubsetDefs.
(** [state.displayKana] of the preferences store. *)
Variable displayKana : bool.

Definition getTextOpacity (isFocused isKana : bool) : string :=
  let shouldShowKana := if displayKana then isKana else negb isKana in
  let desktopClass :=
    if shouldShowKana then "md:opacity-100 md:group-hover:opacity-0"
    else "md:opacity-0 md:group-hover:opacity-100" in
  let mobileClass :=
    if shouldShowKana then
      (if isFocused then "max-md:opacity-0" else "max-md:opacity-100")
    else
      (if isFocused then "max-md:opacity-100" else "max-md:opacity-0") in
  desktopClass +:+ " " +:+ mobileClass.
End SubsetDefs.

(* ===================================================================== *)
(** * The date generator of the sorter's tests *)
(* ===================================================================== *)

(** [String(n)] for an integer. *)
Definition String_of (n : Z) : string := pretty n.

(** [s.padStart(targetLength, padString)]. *)
Definition padStart (s : string) (targetLength : nat) (padString : string)
    : string :=
  let len := String.length s in
  if bool_decide (targetLength ≤ len ∨ padString = "") then s
  else
    let missing := targetLength - len in
    string_of_list_ascii
      (take missing
         (mjoin (replicate missing (list_ascii_of_string padString))))
    +:+ s.

(** The function [dateArb] maps over its records: year, dash, two-digit
    month, dash, two-digit day. *)
Definition dateArb_map (year month day : Z) : string :=
  String_of year +:+ "-" +:+ padStart (String_of month) 2 "0"
    +:+ "-" +:+ padStart (String_of day) 2 "0".

(** The records [dateArb] draws from: years 2020 to 2030, months 1 to 12,
    days 1 to 28. *)
Definition dateArb_records : list (Z * Z * Z) :=
  y ← seqZ 2020 11; m ← seqZ 1 12; d ← seqZ 1 28; [(y, m, d)].

(* ===================================================================== *)
(** * A kana table for the examples *)
(* ===================================================================== *)

(** A kana table of five rows, named by their first syllable, and a range
    that selects the second and the third. *)
Definition example_kana : list string := ["a"; "ka"; "sa"; "ta"; "na"].
Definition example_range : list ExactNumber := [Exact 1; Exact 3].


(* ===================================================================== *)
(** * Properties of the sort *)
(* ===================================================================== *)

Section SortFacts.
Context {A : Type} (comparefn : A → A → option Z).

Lemma binary_insert_perm arr pivot :
  binary_insert comparefn arr pivot ≡ₚ pivot :: arr.
Proof.
  unfold binary_insert.
  rewrite <-Permutation_middle. by rewrite take_drop.
Qed.

Lemma BinaryInsertionSort_perm run rest :
  BinaryInsertionSort comparefn run rest ≡ₚ run ++ rest.
Proof.
  unfold BinaryInsertionSort. revert run.
  induction rest as [|pivot rest IH]; intros run; simpl.
  - by rewrite app_nil_r.
  - rewrite IH, binary_insert_perm. simpl. apply Permutation_middle.
Qed.

Lemma CountAndMakeRun_app l :
  (CountAndMakeRun comparefn l).1 ++ (CountAndMakeRun comparefn l).2 ≡ₚ l.
Proof.
  unfold CountAndMakeRun. destruct l as [|x0 [|x1 l]]; [done..|].
  cbv zeta. case_match; cbn [fst snd]; [rewrite reverse_Permutation|];
    by rewrite take_drop.
Qed.

Lemma array_sort_perm l : array_sort comparefn l ≡ₚ l.
Proof.
  unfold array_sort.
  pose proof (CountAndMakeRun_app l) as Hrun.
  destruct (CountAndMakeRun comparefn l) as [run rest]. simpl in Hrun.
  by rewrite BinaryInsertionSort_perm.
Qed.

(** The search ends before its fuel does: any fuel that covers the
    interval gives the same position. *)
Lemma BinarySearch_fuel pivot arr left right fuel fuel' :
  right - left ≤ fuel → right - left ≤ fuel' →
  BinarySearch comparefn pivot arr left right fuel
  = BinarySearch comparefn pivot arr left right fuel'.
Proof.
  revert left right fuel'.
  induction fuel as [|fuel IH]; intros left right [|fuel'] Hfuel Hfuel';
    cbn [BinarySearch]; try done.
  - by rewrite bool_decide_eq_false_2 by lia.
  - by rewrite bool_decide_eq_false_2 by lia.
  - case_bool_decide as Hlt; [|done].
    pose proof (Nat.div_lt (right - left) 2 ltac:(lia) ltac:(lia)) as Hhalf.
    destruct (arr !! (left + (right - left) / 2)); [|done].
    case_match; apply IH; lia.
Qed.

(** When every comparison is a tie, the whole array is one ascending run. *)
Lemma count_run_ties prev l :
  (∀ x y, x ∈ prev :: l → y ∈ prev :: l → SortCompare comparefn x y = 0%Z) →
  count_run comparefn false prev l = length l.
Proof.
  revert prev. induction l as [|x l IH]; intros prev Hties; [done|].
  simpl. rewrite Hties by (rewrite !elem_of_cons; auto). simpl.
  rewrite IH; [done|]. intros y z Hy Hz. apply Hties; by right.
Qed.

Lemma array_sort_ties l :
  (∀ x y, x ∈ l → y ∈ l → SortCompare comparefn x y = 0%Z) →
  array_sort comparefn l = l.
Proof.
  intros Hties. unfold array_sort, CountAndMakeRun.
  destruct l as [|x0 [|x1 l]]; [done..|].
  rewrite Hties by (rewrite !elem_of_cons; auto).
  rewrite count_run_ties by (intros y z Hy Hz; apply Hties; by right).
  simpl. by rewrite firstn_all, drop_all.
Qed.
End SortFacts.

Lemma Sorted_adjacent {A} (R : relation A) l i a b :
  Sorted R l → l !! i = Some a → l !! S i = Some b → R a b.
Proof.
  intros Hl. revert i. induction Hl as [|x l Hl IH Hx]; intros i Ha Hb; [done|].
  destruct i as [|i]; simpl in *.
  - simplify_eq. destruct Hx; simpl in *; by simplify_eq.
  - eauto.
Qed.

Lemma Sorted_weaken {A} (R1 R2 : relation A) l :
  (∀ a b, R1 a b → R2 a b) → Sorted R1 l → Sorted R2 l.
Proof.
  intros HR. induction 1 as [|x l Hl IH Hx]; constructor; [done|].
  destruct Hx; constructor; auto.
Qed.

Lemma filter_none {A} (P : A → Prop) `{!∀ x, Decision (P x)} l :
  (∀ y, y ∈ l → ¬ P y) → filter P l = [].
Proof.
  induction l as [|x l IH]; intros Hl; [done|].
  rewrite filter_cons, decide_False by (apply Hl; left).
  apply IH. intros y Hy. apply Hl. by right.
Qed.

Section SorterFacts.
Variable Date_getTime : string → option Z.

Lemma SortCompare_dates x y tx ty :
  getTime Date_getTime x = Some tx → getTime Date_getTime y = Some ty →
  SortCompare (compareByDate Date_getTime) x y = (ty - tx)%Z.
Proof. unfold SortCompare, compareByDate. by intros -> ->. Qed.

Lemma date_ge_trans a b c :
  date_ge Date_getTime a b → date_ge Date_getTime b c → date_ge Date_getTime a c.
Proof.
  unfold date_ge.
  destruct (getTime Date_getTime a), (getTime Date_getTime b),
    (getTime Date_getTime c); try done. lia.
Qed.

Lemma date_lt_ge a b : date_lt Date_getTime a b → date_ge Date_getTime b a.
Proof.
  unfold date_lt, date_ge.
  destruct (getTime Date_getTime a), (getTime Date_getTime b); try done. lia.
Qed.

Lemma date_ge_lt_trans a b c :
  date_ge Date_getTime a b → date_lt Date_getTime a c → date_lt Date_getTime b c.
Proof.
  unfold date_lt, date_ge.
  destruct (getTime Date_getTime a), (getTime Date_getTime b),
    (getTime Date_getTime c); try done. lia.
Qed.

Lemma date_lt_trans a b c :
  date_lt Date_getTime a b → date_lt Date_getTime b c → date_lt Date_getTime a c.
Proof.
  unfold date_lt.
  destruct (getTime Date_getTime a), (getTime Date_getTime b),
    (getTime Date_getTime c); try done. lia.
Qed.

(** ** The binary insertion on dated records *)

(** The comparison made by [BinarySearch], read on the dates. *)
Lemma BinarySearch_order pivot element :
  valid_date Date_getTime pivot → valid_date Date_getTime element →
  if (SortCompare (compareByDate Date_getTime) pivot element <? 0)%Z
  then date_lt Date_getTime element pivot
  else date_ge Date_getTime element pivot.
Proof.
  intros [tp Hp] [te He]. rewrite (SortCompare_dates _ _ tp te) by done.
  unfold date_lt, date_ge. rewrite Hp, He.
  destruct (Z.ltb_spec (te - tp) 0); lia.
Qed.

Lemma BinarySearch_spec arr pivot fuel left right :
  Forall (valid_date Date_getTime) arr → valid_date Date_getTime pivot →
  StronglySorted (date_ge Date_getTime) arr →
  left ≤ right ≤ length arr → right - left ≤ fuel →
  Forall (λ e, date_ge Date_getTime e pivot) (take left arr) →
  Forall (λ e, date_lt Date_getTime e pivot) (drop right arr) →
  Forall (λ e, date_ge Date_getTime e pivot)
    (take (BinarySearch (compareByDate Date_getTime) pivot arr left right fuel)
       arr) ∧
  Forall (λ e, date_lt Date_getTime e pivot)
    (drop (BinarySearch (compareByDate Date_getTime) pivot arr left right fuel)
       arr).
Proof.
  intros Hvalid Hpivot Hsorted. revert left right.
  induction fuel as [|fuel IH]; intros left right Hbounds Hfuel Hleft Hright.
  { simpl. by assert (left = right) as -> by lia. }
  cbn [BinarySearch]. case_bool_decide as Hlt;
    [|by assert (left = right) as -> by lia].
  pose proof (Nat.div_lt (right - left) 2 ltac:(lia) ltac:(lia)) as Hhalf.
  set (mid := left + (right - left) / 2) in *.
  destruct (lookup_lt_is_Some_2 arr mid ltac:(lia)) as [element Hmid].
  rewrite Hmid.
  pose proof (take_drop_middle arr mid element Hmid) as Harr.
  rewrite <-Harr in Hsorted.
  pose proof (BinarySearch_order pivot element Hpivot
    ltac:(by eapply (proj1 (Forall_lookup _ _) Hvalid))) as Horder.
  destruct (SortCompare _ pivot element <? 0)%Z.
  - apply IH; [lia|lia|done|].
    rewrite (drop_S arr element mid Hmid). constructor; [done|].
    apply StronglySorted_app_1_r, StronglySorted_inv in Hsorted as [_ Hall].
    eapply Forall_impl; [exact Hall|]. intros e He. simpl in He.
    by eapply date_ge_lt_trans.
  - apply IH; [lia|lia| |done].
    rewrite (take_S_r arr mid element Hmid). apply Forall_app. split.
    + apply Forall_forall. intros e He. eapply date_ge_trans; [|exact Horder].
      eapply (StronglySorted_app_1_elem_of _ _ _ _ _ Hsorted); [done|left].
    + by constructor.
Qed.

Lemma binary_insert_spec arr pivot :
  Forall (valid_date Date_getTime) arr → valid_date Date_getTime pivot →
  StronglySorted (date_ge Date_getTime) arr →
  StronglySorted (date_ge Date_getTime)
    (binary_insert (compareByDate Date_getTime) arr pivot) ∧
  ∀ d, dated Date_getTime d
         (binary_insert (compareByDate Date_getTime) arr pivot)
       = dated Date_getTime d (arr ++ [pivot]).
Proof.
  intros Hvalid Hpivot Hsorted. unfold binary_insert.
  destruct (BinarySearch_spec arr pivot (length arr) 0 (length arr))
    as [Hge Hlt]; [done|done|done|lia|lia|by rewrite take_0|by rewrite drop_all|].
  set (pos := BinarySearch _ pivot arr 0 (length arr) (length arr)) in *.
  pose proof (take_drop pos arr) as Harr.
  split.
  - rewrite <-Harr in Hsorted. apply StronglySorted_app_2.
    + intros x1 x2 Hx1 Hx2. apply elem_of_cons in Hx2 as [->|Hx2].
      * by eapply Forall_forall in Hge.
      * by eapply StronglySorted_app_1_elem_of.
    + by eapply StronglySorted_app_1_l.
    + constructor; [by eapply StronglySorted_app_1_r|].
      eapply Forall_impl; [exact Hlt|]. intros e. apply date_lt_ge.
  - intros d. unfold dated.
    replace (arr ++ [pivot]) with (take pos arr ++ drop pos arr ++ [pivot])
      by (by rewrite (assoc_L (++)), Harr).
    rewrite !filter_app, !filter_cons, filter_nil. f_equal.
    case_decide as Hd; [|by rewrite app_nil_r].
    rewrite (filter_none _ (drop pos arr)); [done|].
    intros e He Hed. eapply Forall_forall in Hlt; [|done].
    unfold date_lt in Hlt. rewrite Hed, Hd in Hlt. lia.
Qed.

Lemma BinaryInsertionSort_spec run rest :
  Forall (valid_date Date_getTime) run → Forall (valid_date Date_getTime) rest →
  StronglySorted (date_ge Date_getTime) run →
  StronglySorted (date_ge Date_getTime)
    (BinaryInsertionSort (compareByDate Date_getTime) run rest) ∧
  ∀ d, dated Date_getTime d
         (BinaryInsertionSort (compareByDate Date_getTime) run rest)
       = dated Date_getTime d (run ++ rest).
Proof.
  unfold BinaryInsertionSort. revert run.
  induction rest as [|pivot rest IH]; intros run Hrun Hrest Hsorted; simpl.
  { by rewrite app_nil_r. }
  apply Forall_cons in Hrest as [Hpivot Hrest].
  destruct (binary_insert_spec run pivot) as [Hsorted' Hdated]; [done..|].
  destruct (IH (binary_insert (compareByDate Date_getTime) run pivot))
    as [Hs Hd]; [|done|done|].
  { rewrite binary_insert_perm. by constructor. }
  split; [done|]. intros d. rewrite Hd. unfold dated in *.
  rewrite filter_app, Hdated, <-filter_app. by rewrite <-(assoc_L (++)).
Qed.

(** ** The first run on dated records *)

Lemma count_run_ascending prev l :
  valid_date Date_getTime prev → Forall (valid_date Date_getTime) l →
  Sorted (date_ge Date_getTime)
    (prev :: take (count_run (compareByDate Date_getTime) false prev l) l).
Proof.
  intros Hprev Hl. revert prev Hprev.
  induction Hl as [|current l Hcurrent Hl IH]; intros prev Hprev.
  { repeat constructor. }
  simpl.
  pose proof (BinarySearch_order current prev Hcurrent Hprev) as Horder.
  destruct (SortCompare _ current prev <? 0)%Z; simpl.
  { repeat constructor. }
  constructor; [by apply IH|by constructor].
Qed.

Lemma count_run_descending prev l :
  valid_date Date_getTime prev → Forall (valid_date Date_getTime) l →
  Sorted (date_lt Date_getTime)
    (prev :: take (count_run (compareByDate Date_getTime) true prev l) l).
Proof.
  intros Hprev Hl. revert prev Hprev.
  induction Hl as [|current l Hcurrent Hl IH]; intros prev Hprev.
  { repeat constructor. }
  simpl.
  pose proof (BinarySearch_order current prev Hcurrent Hprev) as Horder.
  rewrite Z.leb_antisym.
  destruct (SortCompare _ current prev <? 0)%Z; simpl.
  - constructor; [by apply IH|by constructor].
  - repeat constructor.
Qed.

(** Records in strictly ascending order of date: at most one per date, so
    reversing them moves no record past another of its date. *)
Lemma dated_reverse d l :
  Sorted (date_lt Date_getTime) l →
  dated Date_getTime d (reverse l) = dated Date_getTime d l.
Proof.
  intros Hl. unfold dated. rewrite filter_reverse.
  apply Sorted_StronglySorted in Hl; [|intros a b c; apply date_lt_trans].
  assert (Hshort : length (filter (λ p, getTime Date_getTime p = Some d) l) ≤ 1).
  { induction Hl as [|a l Hl IH Ha]; [simpl; lia|].
    rewrite filter_cons. case_decide as Hd; [|done].
    rewrite filter_none; [simpl; lia|].
    intros e He Hed. eapply Forall_forall in Ha; [|done].
    unfold date_lt in Ha. rewrite Hd, Hed in Ha. lia. }
  by destruct (filter _ l) as [|x [|y k]]; simpl in *; [..|lia].
Qed.

Lemma CountAndMakeRun_spec l :
  Forall (valid_date Date_getTime) l →
  StronglySorted (date_ge Date_getTime)
    (CountAndMakeRun (compareByDate Date_getTime) l).1 ∧
  ∀ d, dated Date_getTime d
         ((CountAndMakeRun (compareByDate Date_getTime) l).1
          ++ (CountAndMakeRun (compareByDate Date_getTime) l).2)
       = dated Date_getTime d l.
Proof.
  intros Hvalid. unfold CountAndMakeRun.
  destruct l as [|elementHigh [|elementLow l]].
  { split; [constructor|done]. }
  { split; [repeat constructor|done]. }
  apply Forall_cons in Hvalid as [Hhigh Hvalid].
  apply Forall_cons in Hvalid as [Hlow Hvalid].
  cbv zeta.
  pose proof (BinarySearch_order elementLow elementHigh Hlow Hhigh) as Horder.
  pose proof (take_drop
    (2 + count_run (compareByDate Date_getTime)
           (SortCompare (compareByDate Date_getTime) elementLow elementHigh <? 0)%Z
           elementLow l)
    (elementHigh :: elementLow :: l)) as Hsplit.
  destruct (SortCompare _ elementLow elementHigh <? 0)%Z; cbn [fst snd].
  - assert (Hrun : Sorted (date_lt Date_getTime)
      (take (2 + count_run (compareByDate Date_getTime) true elementLow l)
         (elementHigh :: elementLow :: l))).
    { simpl. constructor; [by apply count_run_descending|by constructor]. }
    split.
    + apply Sorted_StronglySorted; [intros a b c; apply date_ge_trans|].
      apply (Sorted_weaken (flip (date_lt Date_getTime))).
      * intros a b. apply date_lt_ge.
      * by apply Sorted_reverse.
    + intros d. apply (f_equal (dated Date_getTime d)) in Hsplit.
      rewrite <-Hsplit. unfold dated. rewrite !filter_app. f_equal.
      by apply dated_reverse.
  - split.
    + apply Sorted_StronglySorted; [intros a b c; apply date_ge_trans|].
      simpl. constructor; [by apply count_run_ascending|by constructor].
    + intros d. by rewrite Hsplit.
Qed.

(** ** The sorter on dated records *)

Lemma sortPostsByDate_valid posts :
  Forall (valid_date Date_getTime) posts →
  Forall (valid_date Date_getTime) (sortPostsByDate Date_getTime posts).
Proof. intros Hvalid. unfold sortPostsByDate. by rewrite array_sort_perm. Qed.

Lemma sortPostsByDate_spec posts :
  Forall (valid_date Date_getTime) posts →
  StronglySorted (date_ge Date_getTime) (sortPostsByDate Date_getTime posts) ∧
  ∀ d, dated Date_getTime d (sortPostsByDate Date_getTime posts)
       = dated Date_getTime d posts.
Proof.
  intros Hvalid. unfold sortPostsByDate, array_sort.
  destruct (CountAndMakeRun_spec posts Hvalid) as [Hrun Hdated].
  pose proof (CountAndMakeRun_app (compareByDate Date_getTime) posts) as Hperm.
  destruct (CountAndMakeRun (compareByDate Date_getTime) posts) as [run rest].
  simpl in *. rewrite <-Hperm in Hvalid. apply Forall_app in Hvalid as [??].
  destruct (BinaryInsertionSort_spec run rest) as [Hs Hd]; [done..|].
  split; [done|]. intros d. by rewrite Hd.
Qed.

Lemma sortPostsByDate_dated posts d :
  Forall (valid_date Date_getTime) posts →
  dated Date_getTime d (sortPostsByDate Date_getTime posts)
  = dated Date_getTime d posts.
Proof. intros Hvalid. by apply sortPostsByDate_spec. Qed.

Lemma sortPostsByDate_descending_valid posts :
  Forall (valid_date Date_getTime) posts →
  descending Date_getTime (sortPostsByDate Date_getTime posts).
Proof.
  intros Hvalid i a b Ha Hb.
  destruct (sortPostsByDate_spec posts Hvalid) as [Hsorted _].
  by eapply Sorted_adjacent; [apply StronglySorted_Sorted|..].
Qed.

Lemma sortPostsByDate_adjacent posts i a b :
  Forall (valid_date Date_getTime) posts →
  sortPostsByDate Date_getTime posts !! i = Some a →
  sortPostsByDate Date_getTime posts !! S i = Some b →
  ∃ ta tb, getTime Date_getTime a = Some ta ∧
           getTime Date_getTime b = Some tb ∧ (tb ≤ ta)%Z.
Proof.
  intros Hvalid Ha Hb.
  pose proof (sortPostsByDate_descending_valid posts Hvalid i a b Ha Hb) as Hab.
  unfold date_ge in Hab.
  destruct (getTime Date_getTime a) as [ta|]; [|done].
  destruct (getTime Date_getTime b) as [tb|]; [|done].
  by exists ta, tb.
Qed.

(** C1: when every [publishedAt] parses, each record of the output is at
    least as recent as the next one. *)
Theorem sortPostsByDate_descending (posts : list BlogPostMeta) :
  Forall (valid_date Date_getTime) posts →
  ∀ i a b,
    sortPostsByDate Date_getTime posts !! i = Some a →
    sortPostsByDate Date_getTime posts !! S i = Some b →
    ∃ ta tb, getTime Date_getTime a = Some ta ∧
             getTime Date_getTime b = Some tb ∧ (tb ≤ ta)%Z.
Proof.
  intros Hvalid i a b. by apply sortPostsByDate_adjacent.
Qed.

(** ** The output is the only possible one on dated records

    ECMAScript fixes the result of [sort] for a consistent comparator: a
    permutation of the input, in comparator order, equal elements in input
    order. When every date parses, [compareByDate] is consistent, and any
    array with these three properties is the one V8 computes. *)

Lemma descending_cons a l :
  descending Date_getTime (a :: l) → descending Date_getTime l.
Proof. intros H i x y Hx Hy. by apply (H (S i)). Qed.

Lemma descending_StronglySorted l :
  descending Date_getTime l → StronglySorted (date_ge Date_getTime) l.
Proof.
  intros Hl. apply Sorted_StronglySorted.
  { intros a b c. apply date_ge_trans. }
  induction l as [|a l IH]; [constructor|].
  constructor; [by eapply IH, descending_cons|].
  destruct l as [|b l]; constructor. by apply (Hl 0).
Qed.

Lemma dated_cons_eq d p l :
  getTime Date_getTime p = Some d →
  dated Date_getTime d (p :: l) = p :: dated Date_getTime d l.
Proof. intros Hp. unfold dated. by rewrite filter_cons, decide_True. Qed.

Lemma dated_cons_ne d d' p l :
  getTime Date_getTime p = Some d → d ≠ d' →
  dated Date_getTime d' (p :: l) = dated Date_getTime d' l.
Proof.
  intros Hp Hd. unfold dated. rewrite filter_cons, decide_False; [done|].
  congruence.
Qed.

(** The head of a descending list is at least as recent as any record of
    its date class found in it. *)
Lemma descending_head_max a l x da dx :
  StronglySorted (date_ge Date_getTime) (a :: l) →
  getTime Date_getTime a = Some da → getTime Date_getTime x = Some dx →
  x ∈ dated Date_getTime dx (a :: l) → (dx ≤ da)%Z.
Proof.
  intros Hs Ha Hx Hin. apply list_elem_of_filter in Hin as [_ Hin].
  apply elem_of_cons in Hin as [->|Hin]; [simplify_eq; lia|].
  apply StronglySorted_inv in Hs as [_ Hall].
  eapply Forall_forall in Hall; [|done].
  unfold date_ge in Hall. by rewrite Ha, Hx in Hall.
Qed.

Lemma dated_unique l1 l2 :
  StronglySorted (date_ge Date_getTime) l1 →
  StronglySorted (date_ge Date_getTime) l2 →
  Forall (valid_date Date_getTime) l1 →
  Forall (valid_date Date_getTime) l2 →
  (∀ d, dated Date_getTime d l1 = dated Date_getTime d l2) →
  l1 = l2.
Proof.
  revert l2. induction l1 as [|a t1 IH]; intros [|b t2] Hs1 Hs2 Hv1 Hv2 Heq.
  - done.
  - apply Forall_cons in Hv2 as [[db Hb] _]. specialize (Heq db).
    by rewrite (dated_cons_eq db b) in Heq.
  - apply Forall_cons in Hv1 as [[da Ha] _]. specialize (Heq da).
    by rewrite (dated_cons_eq da a) in Heq.
  - apply Forall_cons in Hv1 as [[da Ha] Hv1].
    apply Forall_cons in Hv2 as [[db Hb] Hv2].
    assert (Hle1 : (da ≤ db)%Z).
    { apply (descending_head_max b t2 a db da Hs2 Hb Ha).
      rewrite <-Heq, (dated_cons_eq da a) by done. left. }
    assert (Hle2 : (db ≤ da)%Z).
    { apply (descending_head_max a t1 b da db Hs1 Ha Hb).
      rewrite Heq, (dated_cons_eq db b) by done. left. }
    assert (da = db) as <- by lia.
    pose proof (Heq da) as Hhead.
    rewrite (dated_cons_eq da a), (dated_cons_eq da b) in Hhead by done.
    injection Hhead as <- Htail. f_equal.
    apply StronglySorted_inv in Hs1 as [Hs1 _].
    apply StronglySorted_inv in Hs2 as [Hs2 _].
    apply IH; [done..|]. intros d.
    destruct (decide (da = d)) as [<-|Hd]; [done|].
    specialize (Heq d). by rewrite !(dated_cons_ne da d a) in Heq.
Qed.

Theorem sortPostsByDate_unique (posts sorted : list BlogPostMeta) :
  Forall (valid_date Date_getTime) posts →
  sorted ≡ₚ posts →
  descending Date_getTime sorted →
  (∀ d, dated Date_getTime d sorted = dated Date_getTime d posts) →
  sorted = sortPostsByDate Date_getTime posts.
Proof.
  intros Hvalid Hperm Hdesc Hstable.
  apply dated_unique.
  - by apply descending_StronglySorted.
  - by apply sortPostsByDate_spec.
  - by rewrite Hperm.
  - by apply sortPostsByDate_valid.
  - intros d. by rewrite sortPostsByDate_dated.
Qed.

(** C10: on inputs whose dates all parse, sorting twice is sorting once. *)
Theorem sortPostsByDate_idempotent (posts : list BlogPostMeta) :
  Forall (valid_date Date_getTime) posts →
  sortPostsByDate Date_getTime (sortPostsByDate Date_getTime posts)
  = sortPostsByDate Date_getTime posts.
Proof.
  intros Hvalid. symmetry. apply sortPostsByDate_unique.
  - by apply sortPostsByDate_valid.
  - done.
  - by apply sortPostsByDate_descending_valid.
  - done.
Qed.

(** C2: the output of [sortPostsByDate] is a permutation of its input:
    same length, same multiset of records. *)
Theorem sortPostsByDate_permutation (posts : list BlogPostMeta) :
  sortPostsByDate Date_getTime posts ≡ₚ posts ∧
  length (sortPostsByDate Date_getTime posts) = length posts.
Proof.
  assert (H : sortPostsByDate Date_getTime posts ≡ₚ posts)
    by apply array_sort_perm.
  split; [done|]. by rewrite H.
Qed.

(** C8: [sortPostsByDate] leaves its argument as it was and returns an
    array that did not exist before the call, holding the sorted records;
    no other array changes. For an input of at most one element the new
    array holds what the input holds. *)
Theorem sortPostsByDate_fresh_copy (h : Heap) (posts : positive)
    (l : list BlogPostMeta) :
  h !! posts = Some l →
  ∃ sorted h',
    sortPostsByDate_heap Date_getTime posts h = Some (sorted, h') ∧
    h !! sorted = None ∧
    h' !! sorted = Some (sortPostsByDate Date_getTime l) ∧
    (∀ arr, arr ≠ sorted → h' !! arr = h !! arr) ∧
    h' !! posts = Some l ∧
    (length l ≤ 1 → h' !! sorted = Some l).
Proof.
  intros Hposts.
  pose proof (is_fresh (dom h)) as Hfresh.
  apply not_elem_of_dom in Hfresh.
  exists (fresh (dom h)), (<[fresh (dom h) := sortPostsByDate Date_getTime l]> h).
  assert (Hne : posts ≠ fresh (dom h)) by congruence.
  split.
  { unfold sortPostsByDate_heap, spread, sort_in_place.
    rewrite Hposts. simpl. rewrite lookup_insert_eq. simpl.
    by rewrite insert_insert_eq. }
  split; [done|]. split; [by rewrite lookup_insert_eq|].
  split; [by intros arr Harr; rewrite lookup_insert_ne|].
  split; [by rewrite lookup_insert_ne|].
  intros Hlen. rewrite lookup_insert_eq.
  destruct l as [|x [|y l]]; simpl in *; [done..|lia].
Qed.
End SorterFacts.

(* ===================================================================== *)
(** * Properties of the loader *)
(* ===================================================================== *)

(** ** Paths *)

Lemma list_ascii_of_string_app a b :
  list_ascii_of_string (a +:+ b) = list_ascii_of_string a ++ list_ascii_of_string b.
Proof. induction a as [|c a IH]; simpl; [done|by rewrite IH]. Qed.

Lemma list_ascii_of_string_inj a b :
  list_ascii_of_string a = list_ascii_of_string b → a = b.
Proof.
  intros H. apply (f_equal string_of_list_ascii) in H.
  by rewrite !string_of_list_ascii_of_string in H.
Qed.

(** A join ends with its last argument, and with a slash before it when
    there is something to join it to. *)
Lemma path_join_tail dir rest :
  dir ≠ "" →
  ∃ pre, list_ascii_of_string (path_join dir rest)
         = pre ++ "/"%char :: list_ascii_of_string rest.
Proof.
  intros Hdir. unfold path_join. rewrite bool_decide_eq_false_2 by done.
  destruct (endsWith dir "/") eqn:He.
  - apply bool_decide_eq_true in He. destruct He as [k Hk]. simpl in Hk.
    exists k. by rewrite list_ascii_of_string_app, Hk, <-app_assoc.
  - exists (list_ascii_of_string dir). by rewrite !list_ascii_of_string_app.
Qed.

Lemma path_join_nonempty dir rest : rest ≠ "" → path_join dir rest ≠ "".
Proof.
  intros Hrest. unfold path_join. case_bool_decide; [done|].
  destruct dir; [done|]. by case_match.
Qed.

Lemma getPostsDirectory_nonempty cwd lc : getPostsDirectory cwd lc ≠ "".
Proof. apply path_join_nonempty. by destruct lc. Qed.

Lemma drop_while_stop {A} (f : A → bool) l x :
  head l = Some x → f x = false → drop_while f l = l.
Proof. destruct l; simpl; [done|]. intros [= ->] ->. done. Qed.

Lemma take_while_app_stop {A} (f : A → bool) l1 x l2 :
  Forall (λ y, f y = true) l1 → f x = false →
  take_while f (l1 ++ x :: l2) = l1.
Proof.
  intros Hl1 Hx. induction Hl1 as [|y l1 Hy _ IH]; simpl.
  - by rewrite Hx.
  - by rewrite Hy, IH.
Qed.

Lemma last_segment_name pre name :
  name ≠ [] → "/"%char ∉ name →
  last_segment (pre ++ "/"%char :: name) = name.
Proof.
  intros Hne Hslash. unfold last_segment.
  rewrite reverse_app, reverse_cons, <-app_assoc. simpl.
  assert (Hall : Forall (λ c, negb (is_slash c) = true) (reverse name)).
  { apply Forall_forall. intros c Hc. rewrite elem_of_reverse in Hc.
    unfold is_slash. rewrite bool_decide_eq_false_2; [done|]. by intros ->. }
  rewrite (drop_while_stop _ _ (default "/"%char (head (reverse name)))).
  - rewrite take_while_app_stop; [apply reverse_involutive|done|done].
  - destruct (reverse name) as [|c l] eqn:Hrev; [|done].
    apply (f_equal reverse) in Hrev. by rewrite reverse_involutive in Hrev.
  - destruct (reverse name) as [|c l] eqn:Hrev; simpl.
    + apply (f_equal reverse) in Hrev. by rewrite reverse_involutive in Hrev.
    + apply Forall_cons in Hall as [Hc _]. by apply negb_true_iff in Hc.
Qed.

(** The slug of a directory entry with the content extension: the name
    without the extension, unless nothing would be left. *)
Lemma path_basename_entry dir file :
  dir ≠ "" → entry_name file → endsWith file ".mdx" = true →
  ∃ stem, file = stem +:+ ".mdx" ∧
    path_basename (path_join dir file) ".mdx"
    = if bool_decide (stem = "") then ".mdx" else stem.
Proof.
  intros Hdir [Hne Hslash] Hext.
  destruct (path_join_tail dir file Hdir) as [pre Hpath].
  apply bool_decide_eq_true in Hext. destruct Hext as [k Hk].
  exists (string_of_list_ascii k).
  assert (Hfile : file = string_of_list_ascii k +:+ ".mdx").
  { apply list_ascii_of_string_inj.
    by rewrite list_ascii_of_string_app, list_ascii_of_string_of_list_ascii. }
  split; [done|]. unfold path_basename.
  rewrite bool_decide_eq_false_2.
  2: { intros Heq. rewrite <-Heq in Hpath.
       assert (Hin : "/"%char ∈ list_ascii_of_string ".mdx").
       { rewrite Hpath. apply elem_of_app. right. left. }
       revert Hin.
       by apply (bool_decide_eq_false
                   ("/"%char ∈ list_ascii_of_string ".mdx")). }
  rewrite Hpath, last_segment_name; [|by destruct file|done].
  rewrite Hk. destruct (decide (k = [])) as [->|Hk0]; [done|].
  assert (Hlen : length (list_ascii_of_string ".mdx") = 4) by done.
  remember (list_ascii_of_string ".mdx") as e eqn:He.
  rewrite bool_decide_eq_true_2.
  - rewrite length_app, Nat.add_sub, take_app_length.
    rewrite bool_decide_eq_false_2; [done|].
    intros Hs. apply (f_equal list_ascii_of_string) in Hs.
    by rewrite list_ascii_of_string_of_list_ascii in Hs.
  - split; [by exists k|].
    intros Heq. apply (f_equal length) in Heq.
    rewrite length_app in Heq. destruct k; [done|]. simpl in Heq. lia.
Qed.

Lemma omap_id_fst {A B} (l : list (option A * B)) :
  omap id (l.*1) = omap fst l.
Proof.
  induction l as [|[[a|] b] l IH]; simpl; [done|by f_equal|done].
Qed.

Section LoaderFacts.
Variable cwd : string.
Variable fs : FileSystem.
Variable matter : string → Completion (Frontmatter * string).
Variable validateFrontmatter : Frontmatter → ValidationResult.
Variable calculateReadingTime : string → Z.
Variable Date_getTime : string → option Z.

Abbreviation parsePostFile' :=
  (parsePostFile fs matter validateFrontmatter calculateReadingTime).
Abbreviation getBlogPosts' :=
  (getBlogPosts cwd fs matter validateFrontmatter calculateReadingTime
     Date_getTime).
Abbreviation file_outcome' :=
  (file_outcome fs matter validateFrontmatter calculateReadingTime).
Abbreviation getBlogPost' :=
  (getBlogPost cwd fs matter validateFrontmatter calculateReadingTime).

(** [parsePostFile] never throws: it returns the record, or [null] after
    one line on the console. *)
Lemma parsePostFile_outcome filePath lc out :
  ∃ o lines,
    parsePostFile' filePath lc out = (Normal o, out ++ lines) ∧
    file_outcome' filePath lc o lines.
Proof.
  unfold parsePostFile, try_catch, mbind, IO_bind, lift, console_error,
    mret, IO_ret.
  destruct (readFileSync fs filePath) as [fileContent|e] eqn:Hread; simpl.
  2: { eexists _, _; split; [done|]. by apply outcome_unreadable. }
  destruct (matter fileContent) as [[frontmatter content]|e] eqn:Hm; simpl.
  2: { eexists _, _; split; [done|]. by eapply outcome_unparsable. }
  destruct (success (validateFrontmatter frontmatter)) eqn:Hv; simpl.
  - eexists _, []; split; [by rewrite app_nil_r|].
    by eapply outcome_post.
  - eexists _, _; split; [done|]. by eapply outcome_invalid.
Qed.

(** The files of a directory are parsed one after the other, whatever
    happens to each. *)
Lemma array_map_outcomes dir lc files out :
  ∃ outcomes : list (option BlogPostMeta * list ConsoleLine),
    Forall2 (λ file o, file_outcome' (path_join dir file) lc o.1 o.2)
      files outcomes ∧
    array_map (λ file, parsePostFile' (path_join dir file) lc) files out
    = (Normal (outcomes.*1), out ++ concat (outcomes.*2)).
Proof.
  revert out. induction files as [|file files IH]; intros out; simpl.
  { exists []. split; [constructor|]. unfold mret, IO_ret. simpl.
    by rewrite app_nil_r. }
  destruct (parsePostFile_outcome (path_join dir file) lc out)
    as (o & lines & Hrun & Ho).
  destruct (IH (out ++ lines)) as (outcomes & Hall & Hmap).
  exists ((o, lines) :: outcomes). split; [by constructor|].
  unfold mbind, IO_bind. rewrite Hrun. fold (@IO_bind). simpl.
  unfold mbind, IO_bind. rewrite Hmap. simpl.
  unfold mret, IO_ret. by rewrite app_assoc.
Qed.

(** What [getBlogPosts] does on a directory. *)
Lemma getBlogPosts_directory lc entries out :
  fs !! getPostsDirectory cwd lc = Some (Directory entries) →
  ∃ outcomes : list (option BlogPostMeta * list ConsoleLine),
    Forall2
      (λ file o,
         file_outcome' (path_join (getPostsDirectory cwd lc) file) lc o.1 o.2)
      (filter (λ file, endsWith file ".mdx") entries) outcomes ∧
    getBlogPosts' lc out
    = (Normal (sortPostsByDate Date_getTime (omap fst outcomes)),
       out ++ concat (outcomes.*2)).
Proof.
  intros Hdir. unfold getBlogPosts, existsSync, readdirSync.
  rewrite Hdir, bool_decide_eq_true_2 by eauto. simpl.
  destruct (array_map_outcomes (getPostsDirectory cwd lc) lc
              (filter (λ file, endsWith file ".mdx") entries) out)
    as (outcomes & Hall & Hmap).
  exists outcomes. split; [done|].
  unfold mbind, IO_bind, lift. simpl.
  unfold mbind, IO_bind. rewrite Hmap. simpl.
  unfold mret, IO_ret. by rewrite omap_id_fst.
Qed.

Lemma getBlogPosts_missing lc out :
  fs !! getPostsDirectory cwd lc = None →
  getBlogPosts' lc out = (Normal [], out).
Proof.
  intros Hdir. unfold getBlogPosts, existsSync.
  rewrite bool_decide_eq_false_2; [done|].
  rewrite Hdir. by intros [??].
Qed.

(** C5: for a locale whose content directory does not exist,
    [getBlogPosts] returns the empty array; it does not throw and writes
    nothing to the console. *)
Theorem getBlogPosts_no_directory (lc : Locale) (out : list ConsoleLine) :
  existsSync fs (getPostsDirectory cwd lc) = false →
  getBlogPosts' lc out = (Normal [], out).
Proof.
  intros Hex. apply getBlogPosts_missing.
  unfold existsSync in Hex. apply bool_decide_eq_false in Hex.
  destruct (fs !! getPostsDirectory cwd lc); [|done].
  destruct Hex. eauto.
Qed.

(** C6: on a locale directory, [getBlogPosts] returns normally; every
    file with the content extension has exactly one outcome, in
    directory order: its record, or one line on the console when reading
    it, parsing it or validating its frontmatter fails; the array
    returned holds exactly the records. *)
Theorem getBlogPosts_skips_bad_files (lc : Locale) (entries : list string)
    (out : list ConsoleLine) :
  fs !! getPostsDirectory cwd lc = Some (Directory entries) →
  ∃ (outcomes : list (option BlogPostMeta * list ConsoleLine))
    (posts : list BlogPostMeta),
    getBlogPosts' lc out = (Normal posts, out ++ concat (outcomes.*2)) ∧
    Forall2
      (λ file o,
         file_outcome' (path_join (getPostsDirectory cwd lc) file) lc o.1 o.2)
      (filter (λ file, endsWith file ".mdx") entries) outcomes ∧
    posts ≡ₚ omap fst outcomes.
Proof.
  intros Hdir.
  destruct (getBlogPosts_directory lc entries out Hdir)
    as (outcomes & Hall & Hrun).
  exists outcomes, (sortPostsByDate Date_getTime (omap fst outcomes)).
  repeat split; [done..|]. apply array_sort_perm.
Qed.
Lemma getBlogPosts_not_a_directory lc content out :
  fs !! getPostsDirectory cwd lc = Some (RegularFile content) →
  getBlogPosts' lc out = (Throw (ENOTDIR (getPostsDirectory cwd lc)), out).
Proof.
  intros Hdir. unfold getBlogPosts, existsSync, readdirSync.
  rewrite Hdir, bool_decide_eq_true_2 by eauto. done.
Qed.

(** Every record returned comes from a file of the directory. *)
Lemma getBlogPosts_source lc out posts out' p :
  getBlogPosts' lc out = (Normal posts, out') → p ∈ posts →
  ∃ entries file,
    fs !! getPostsDirectory cwd lc = Some (Directory entries) ∧
    file ∈ entries ∧ endsWith file ".mdx" = true ∧
    file_outcome' (path_join (getPostsDirectory cwd lc) file) lc (Some p) [].
Proof.
  intros Hrun Hp.
  destruct (fs !! getPostsDirectory cwd lc) as [[entries|content]|] eqn:Hdir.
  - destruct (getBlogPosts_directory lc entries out Hdir)
      as (outcomes & Hall & Hrun').
    rewrite Hrun' in Hrun. injection Hrun as <- <-.
    unfold sortPostsByDate in Hp. rewrite array_sort_perm in Hp.
    apply list_elem_of_omap in Hp as ([o lines] & Ho & Hsome).
    simpl in Hsome. subst o.
    apply list_elem_of_lookup in Ho as [i Hi].
    destruct (Forall2_lookup_r _ _ _ _ _ Hall Hi) as (file & Hfile & Hout).
    apply list_elem_of_lookup_2 in Hfile.
    apply list_elem_of_filter in Hfile as [Hext Hin].
    exists entries, file. repeat split; [done|by apply Is_true_eq_true|].
    simpl in Hout. by inversion Hout; subst.
  - rewrite (getBlogPosts_not_a_directory lc content out Hdir) in Hrun. done.
  - rewrite (getBlogPosts_missing lc out Hdir) in Hrun.
    injection Hrun as <- <-. by apply elem_of_nil in Hp.
Qed.

(** X21: every record returned carries the locale of the call and comes
    from a file of the directory whose name ends in [.mdx]; its slug is
    that name without the [.mdx] at its end, unless the name is [.mdx] and
    nothing more, which [path.basename] returns whole. *)
Theorem getBlogPosts_slug_and_locale (lc : Locale) (out out' : list ConsoleLine)
    (posts : list BlogPostMeta) (p : BlogPostMeta) :
  wf_fs fs →
  getBlogPosts' lc out = (Normal posts, out') →
  p ∈ posts →
  locale p = lc ∧
  ∃ entries file stem,
    fs !! getPostsDirectory cwd lc = Some (Directory entries) ∧
    file ∈ entries ∧
    file_outcome' (path_join (getPostsDirectory cwd lc) file) lc (Some p) [] ∧
    file = stem +:+ ".mdx" ∧
    slug p = (if bool_decide (stem = "") then ".mdx" else stem).
Proof.
  intros Hwf Hrun Hp.
  destruct (getBlogPosts_source lc out posts out' p Hrun Hp)
    as (entries & file & Hdir & Hin & Hext & Hout).
  assert (Hname : entry_name file).
  { specialize (Hwf _ _ Hdir). simpl in Hwf. by eapply Forall_forall in Hwf. }
  destruct (path_basename_entry (getPostsDirectory cwd lc) file
              (getPostsDirectory_nonempty cwd lc) Hname Hext)
    as (stem & Hstem & Hbase).
  inversion Hout; subst.
  split; [done|]. exists entries, (stem +:+ ".mdx"), stem.
  repeat split; try done. congruence.
Qed.

(** X20: unless the content path is a regular file, where [readdirSync]
    throws, [getBlogPosts] returns [sortPostsByDate] of the records
    parsed, taken in directory order; that array is in descending order
    of date as soon as the [publishedAt] of every one of them parses. *)
Theorem getBlogPosts_sorted (lc : Locale) (out : list ConsoleLine) :
  (∃ content,
     fs !! getPostsDirectory cwd lc = Some (RegularFile content) ∧
     getBlogPosts' lc out = (Throw (ENOTDIR (getPostsDirectory cwd lc)), out)) ∨
  (∃ parsed out',
     getBlogPosts' lc out
     = (Normal (sortPostsByDate Date_getTime parsed), out') ∧
     (fs !! getPostsDirectory cwd lc = None → parsed = []) ∧
     (∀ entries,
        fs !! getPostsDirectory cwd lc = Some (Directory entries) →
        ∃ outcomes : list (option BlogPostMeta * list ConsoleLine),
          Forall2
            (λ file o,
               file_outcome' (path_join (getPostsDirectory cwd lc) file) lc
                 o.1 o.2)
            (filter (λ file, endsWith file ".mdx") entries) outcomes ∧
          parsed = omap fst outcomes) ∧
     (Forall (valid_date Date_getTime) parsed →
      descending Date_getTime (sortPostsByDate Date_getTime parsed))).
Proof.
  destruct (fs !! getPostsDirectory cwd lc) as [[entries|content]|] eqn:Hdir.
  - right.
    destruct (getBlogPosts_directory lc entries out Hdir)
      as (outcomes & Hall & Hrun).
    exists (omap fst outcomes), (out ++ concat (outcomes.*2)).
    split; [done|]. split; [done|]. split.
    + intros entries' [= <-]. by exists outcomes.
    + apply sortPostsByDate_descending_valid.
  - left. exists content. split; [done|].
    by apply (getBlogPosts_not_a_directory lc content).
  - right. exists [], out. split; [by apply getBlogPosts_missing|].
    split; [done|]. split; [done|].
    apply sortPostsByDate_descending_valid.
Qed.

Lemma file_outcome_locale filePath lc p lines :
  file_outcome' filePath lc (Some p) lines → locale p = lc.
Proof. by inversion 1. Qed.

(** C4: [getBlogPost] never throws. When a file for the slug exists in
    the directory of the requested locale, the result is what parsing
    that file gives, with the requested locale in the record; when it
    exists only in the directory of the default locale, the result is what
    parsing that one gives, with the default locale in the record; when it
    exists in neither, the result is [null] and nothing is logged. *)
Theorem getBlogPost_locale_fallback (slug_ : string) (lc : Locale)
    (out : list ConsoleLine) :
  ∃ r lines,
    getBlogPost' slug_ lc out = (Normal r, out ++ lines) ∧
    (postExists cwd fs lc slug_ = true →
     file_outcome' (getPostFilePath cwd lc slug_) lc r lines ∧
     ∀ p, r = Some p → locale p = lc) ∧
    (postExists cwd fs lc slug_ = false →
     postExists cwd fs DEFAULT_LOCALE slug_ = true →
     file_outcome' (getPostFilePath cwd DEFAULT_LOCALE slug_) DEFAULT_LOCALE
       r lines ∧
     ∀ p, r = Some p → locale p = DEFAULT_LOCALE) ∧
    (postExists cwd fs lc slug_ = false →
     postExists cwd fs DEFAULT_LOCALE slug_ = false →
     r = None ∧ lines = []).
Proof.
  unfold getBlogPost.
  destruct (postExists cwd fs lc slug_) eqn:Hlc.
  - destruct (parsePostFile_outcome (getPostFilePath cwd lc slug_) lc out)
      as (r & lines & Hrun & Hout).
    exists r, lines. split; [done|]. repeat split; try done.
    intros p ->. by eapply file_outcome_locale.
  - destruct (postExists cwd fs DEFAULT_LOCALE slug_) eqn:Hdef.
    + destruct (parsePostFile_outcome
                  (getPostFilePath cwd DEFAULT_LOCALE slug_) DEFAULT_LOCALE out)
        as (r & lines & Hrun & Hout).
      exists r, lines. split; [done|]. repeat split; try done.
      intros p ->. by eapply file_outcome_locale.
    + exists None, []. unfold mret, IO_ret. rewrite app_nil_r.
      repeat split; done.
Qed.
End LoaderFacts.

(* ===================================================================== *)
(** * Worked examples *)
(* ===================================================================== *)

Lemma example_posts_valid :
  Forall (valid_date isoDate_getTime) [older_post; newer_post].
Proof. repeat constructor; eexists; vm_compute; reflexivity. Defined.

(** Two dated posts, oldest first, come out newest first. *)
Lemma sortPostsByDate_descending_witness :
  Forall (valid_date isoDate_getTime) [older_post; newer_post] ∧
  ∃ ta tb, getTime isoDate_getTime newer_post = Some ta ∧
           getTime isoDate_getTime older_post = Some tb ∧ (tb ≤ ta)%Z.
Proof.
  split; [exact example_posts_valid|].
  apply (sortPostsByDate_descending isoDate_getTime [older_post; newer_post]
           example_posts_valid 0); vm_compute; reflexivity.
Defined.

Lemma sortPostsByDate_idempotent_witness :
  Forall (valid_date isoDate_getTime) [older_post; newer_post] ∧
  sortPostsByDate isoDate_getTime
    (sortPostsByDate isoDate_getTime [older_post; newer_post])
  = sortPostsByDate isoDate_getTime [older_post; newer_post].
Proof.
  split; [exact example_posts_valid|].
  exact (sortPostsByDate_idempotent isoDate_getTime [older_post; newer_post]
           example_posts_valid).
Defined.

Lemma sortPostsByDate_fresh_copy_witness :
  example_heap !! 1%positive = Some [older_post; newer_post] ∧
  ∃ sorted h',
    sortPostsByDate_heap isoDate_getTime 1%positive example_heap
    = Some (sorted, h') ∧
    example_heap !! sorted = None ∧
    h' !! sorted
    = Some (sortPostsByDate isoDate_getTime [older_post; newer_post]) ∧
    (∀ arr, arr ≠ sorted → h' !! arr = example_heap !! arr) ∧
    h' !! 1%positive = Some [older_post; newer_post] ∧
    (length [older_post; newer_post] ≤ 1 →
     h' !! sorted = Some [older_post; newer_post]).
Proof.
  split; [vm_compute; reflexivity|].
  apply (sortPostsByDate_fresh_copy isoDate_getTime example_heap 1%positive).
  vm_compute; reflexivity.
Defined.

(** There is no Japanese directory in the example. *)
Lemma getBlogPosts_no_directory_witness :
  existsSync example_fs (getPostsDirectory example_cwd ja) = false ∧
  example_getBlogPosts example_fs ja [] = (Normal [], []).
Proof.
  split; [vm_compute; reflexivity|].
  apply getBlogPosts_no_directory. vm_compute; reflexivity.
Defined.

Lemma getBlogPosts_skips_bad_files_witness :
  example_fs !! getPostsDirectory example_cwd en
  = Some (Directory example_entries) ∧
  ∃ (outcomes : list (option BlogPostMeta * list ConsoleLine))
    (posts : list BlogPostMeta),
    example_getBlogPosts example_fs en []
    = (Normal posts, [] ++ concat (outcomes.*2)) ∧
    Forall2
      (λ file o,
         file_outcome example_fs example_matter validateFrontmatter_spec
           (calculateReadingTime_spec 200)
           (path_join (getPostsDirectory example_cwd en) file) en o.1 o.2)
      (filter (λ file, endsWith file ".mdx") example_entries) outcomes ∧
    posts ≡ₚ omap fst outcomes.
Proof.
  split; [vm_compute; reflexivity|].
  apply getBlogPosts_skips_bad_files. vm_compute; reflexivity.
Defined.

(** The English directory of the example without the undated file: the
    two dated records come back newest first. *)
Lemma getBlogPosts_sorted_witness :
  ∃ parsed out',
    example_getBlogPosts dated_fs en []
    = (Normal (sortPostsByDate isoDate_getTime parsed), out') ∧
    descending isoDate_getTime (sortPostsByDate isoDate_getTime parsed).
Proof.
  destruct (getBlogPosts_sorted example_cwd dated_fs example_matter
              validateFrontmatter_spec (calculateReadingTime_spec 200)
              isoDate_getTime en [])
    as [(content & Hdir & _)|(parsed & out' & Hrun & _ & Hparsed & Hdesc)].
  - vm_compute in Hdir. discriminate Hdir.
  - exists parsed, out'. split; [exact Hrun|]. apply Hdesc.
    destruct (Hparsed ["01-older.mdx"; "03-newer.mdx"]) as (outcomes & Hall & ->);
      [vm_compute; reflexivity|].
    apply Forall_forall. intros p Hp.
    apply list_elem_of_omap in Hp as ([o lines] & Ho & Hsome).
    simpl in Hsome. subst o.
    apply list_elem_of_lookup in Ho as [i Hi].
    destruct (Forall2_lookup_r _ _ _ _ _ Hall Hi) as (file & Hfile & Hout).
    apply list_elem_of_lookup_2 in Hfile.
    simpl in Hout. inversion Hout as [| | |content fm body q Hread Hm]; subst.
    unfold valid_date, getTime.
    match goal with H : publishedAt p = _ |- _ => rewrite H end.
    vm_compute in Hfile.
    apply elem_of_cons in Hfile as [->|Hfile];
      [|apply elem_of_cons in Hfile as [->|Hfile];
        [|by apply elem_of_nil in Hfile]];
      vm_compute in Hread; injection Hread as <-;
      vm_compute in Hm; injection Hm as <- <-; vm_compute; eauto.
Defined.

Lemma example_fs_wf : wf_fs example_fs.
Proof. apply (bool_decide_unpack _). vm_compute. exact I. Defined.

Lemma getBlogPosts_slug_and_locale_witness :
  wf_fs example_fs ∧
  locale newer_post = en ∧
  ∃ entries file stem,
    example_fs !! getPostsDirectory example_cwd en = Some (Directory entries) ∧
    file ∈ entries ∧
    file_outcome example_fs example_matter validateFrontmatter_spec
      (calculateReadingTime_spec 200)
      (path_join (getPostsDirectory example_cwd en) file) en
      (Some newer_post) [] ∧
    file = stem +:+ ".mdx" ∧
    slug newer_post = (if bool_decide (stem = "") then ".mdx" else stem).
Proof.
  split; [exact example_fs_wf|].
  apply (getBlogPosts_slug_and_locale example_cwd example_fs example_matter
           validateFrontmatter_spec (calculateReadingTime_spec 200)
           isoDate_getTime en []
           (example_getBlogPosts example_fs en []).2
           [older_post; undated_post; newer_post]).
  - exact example_fs_wf.
  - vm_compute; reflexivity.
  - do 2 right. left.
Defined.

(** A Japanese reader asking for a post that exists in English only gets
    the English record. *)
Lemma getBlogPost_locale_fallback_witness :
  ∃ r lines,
    getBlogPost example_cwd example_fs example_matter validateFrontmatter_spec
      (calculateReadingTime_spec 200) "01-older" ja [] = (Normal r, lines) ∧
    ∀ p, r = Some p → locale p = en.
Proof.
  destruct (getBlogPost_locale_fallback example_cwd example_fs example_matter
              validateFrontmatter_spec (calculateReadingTime_spec 200)
              "01-older" ja [])
    as (r & lines & Hrun & _ & Hdefault & _).
  exists r, lines. split; [exact Hrun|].
  apply Hdefault; vm_compute; reflexivity.
Defined.

(** The cases of the repository's tests for [getBlogPost] and
    [postExists], on the example directory: a post found in the requested
    locale, a post found in English only, a post found nowhere. *)
Example getBlogPost_requested_locale :
  getBlogPost example_cwd example_fs example_matter validateFrontmatter_spec
    (calculateReadingTime_spec 200) "01-older" en []
  = (Normal (Some older_post), []).
Proof. vm_compute. reflexivity. Qed.

Example getBlogPost_english_fallback :
  postExists example_cwd example_fs ja "01-older" = false ∧
  getBlogPost example_cwd example_fs example_matter validateFrontmatter_spec
    (calculateReadingTime_spec 200) "01-older" ja []
  = (Normal (Some older_post), []).
Proof. split; vm_compute; reflexivity. Qed.

Example getBlogPost_nowhere :
  getBlogPost example_cwd example_fs example_matter validateFrontmatter_spec
    (calculateReadingTime_spec 200) "non-existent-anywhere" ja []
  = (Normal None, []).
Proof. vm_compute. reflexivity. Qed.

(** The cases of the repository's tests for the sorter. *)
Example sortPostsByDate_empty : sortPostsByDate isoDate_getTime [] = [].
Proof. reflexivity. Qed.

Example sortPostsByDate_single :
  sortPostsByDate isoDate_getTime [newer_post] = [newer_post].
Proof. reflexivity. Qed.

Example sortPostsByDate_newest_first :
  sortPostsByDate isoDate_getTime
    [older_post; newer_post; example_post "Twin" "twin" "2024-01-01"]
  = [newer_post; older_post; example_post "Twin" "twin" "2024-01-01"].
Proof. vm_compute. reflexivity. Qed.

(** A record whose date does not parse ties with every other record. It
    does not break the run the array starts with, and stays where that
    leaves it. *)
Example sortPostsByDate_undated :
  sortPostsByDate isoDate_getTime [older_post; undated_post; newer_post]
  = [older_post; undated_post; newer_post] ∧
  sortPostsByDate isoDate_getTime [newer_post; older_post; undated_post]
  = [newer_post; older_post; undated_post] ∧
  sortPostsByDate isoDate_getTime [older_post; newer_post; undated_post]
  = [newer_post; older_post; undated_post] ∧
  sortPostsByDate isoDate_getTime [undated_post; older_post; newer_post]
  = [undated_post; newer_post; older_post].
Proof. repeat split; vm_compute; reflexivity. Qed.

(** What the loader makes of the example directory: three records, and
    one line for each of the three files it could not use. *)
Example getBlogPosts_example :
  example_getBlogPosts example_fs en []
  = (Normal [older_post; undated_post; newer_post],
     [ErrorLine
        ("Invalid frontmatter in " +:+ posts_en +:+ "/04-untitled.mdx"
           +:+ ": missing fields title") None;
      ErrorLine ("Error parsing post file " +:+ posts_en +:+ "/05-broken.mdx:")
        (Some (YAMLException broken_mdx));
      ErrorLine ("Error parsing post file " +:+ posts_en +:+ "/06-drafts.mdx:")
        (Some (EISDIR (posts_en +:+ "/06-drafts.mdx")))]).
Proof. vm_compute. reflexivity. Qed.

(** C3: on seven records, three of them with a date that does not
    parse, the output has the seventh record ahead of the fifth, although
    the two are of the same day and the fifth comes first in the input. *)
Theorem sortPostsByDate_mixed_not_stable :
  sortPostsByDate isoDate_getTime mixed_posts
  = [draft_a; draft_b; ninth_row; second_row_again; first_row; draft_c;
     second_row] ∧
  mixed_posts !! 4 = Some second_row ∧
  mixed_posts !! 6 = Some second_row_again ∧
  getTime isoDate_getTime second_row = Some 1704153600000%Z ∧
  getTime isoDate_getTime second_row_again = Some 1704153600000%Z ∧
  sortPostsByDate isoDate_getTime mixed_posts !! 3 = Some second_row_again ∧
  sortPostsByDate isoDate_getTime mixed_posts !! 6 = Some second_row ∧
  dated isoDate_getTime 1704153600000 mixed_posts
  = [second_row; second_row_again] ∧
  dated isoDate_getTime 1704153600000
    (sortPostsByDate isoDate_getTime mixed_posts)
  = [second_row_again; second_row].
Proof. repeat split; vm_compute; reflexivity. Qed.

(** C7: on the example directory, whose undated file passes validation,
    [getBlogPosts] returns the three records with the older post ahead of
    the newer one: the array is not in descending order of date. *)
Theorem getBlogPosts_undated_not_descending :
  example_fs !! getPostsDirectory example_cwd en
  = Some (Directory example_entries) ∧
  (example_getBlogPosts example_fs en []).1
  = Normal [older_post; undated_post; newer_post] ∧
  ¬ descending isoDate_getTime [older_post; undated_post; newer_post] ∧
  getTime isoDate_getTime older_post = Some 1704067200000%Z ∧
  getTime isoDate_getTime undated_post = None ∧
  getTime isoDate_getTime newer_post = Some 1704153600000%Z.
Proof.
  split; [vm_compute; reflexivity|]. split; [vm_compute; reflexivity|].
  split; [|repeat split; vm_compute; reflexivity].
  intros H. specialize (H 0 older_post undated_post eq_refl eq_refl).
  vm_compute in H. exact H.
Qed.

(** C9: the record of a file named [.mdx] has the slug [.mdx], not the
    empty name that is left when the extension goes. *)
Theorem getBlogPosts_dotfile_slug :
  dotfile_fs !! getPostsDirectory example_cwd en = Some (Directory [".mdx"]) ∧
  (example_getBlogPosts dotfile_fs en []).1
  = Normal [example_post "Older" ".mdx" "2024-01-01"] ∧
  ¬ ∃ file, file ∈ [".mdx"] ∧
      file = slug (example_post "Older" ".mdx" "2024-01-01") +:+ ".mdx".
Proof.
  split; [vm_compute; reflexivity|]. split; [vm_compute; reflexivity|].
  intros (file & Hin & Heq). apply list_elem_of_singleton in Hin.
  subst file. discriminate Heq.
Qed.

(** The files [.mdx] and [.mdx.mdx] of one directory give two records
    with one slug. *)
Example getBlogPosts_shared_slug :
  (example_getBlogPosts dotfiles_fs en []).1
  = Normal [example_post "Newer" ".mdx" "2024-01-02";
            example_post "Older" ".mdx" "2024-01-01"].
Proof. vm_compute. reflexivity. Qed.

(* ===================================================================== *)
(** * Further properties of the sorter *)
(* ===================================================================== *)

Lemma StronglySorted_filter {A} (R : relation A) (P : A → Prop)
    `{!∀ x, Decision (P x)} l :
  StronglySorted R l → StronglySorted R (filter P l).
Proof.
  induction 1 as [|x l Hl IH Hx]; [constructor|].
  rewrite filter_cons. case_decide; [|done].
  constructor; [done|].
  apply Forall_forall. intros y Hy. apply list_elem_of_filter in Hy as [_ Hy].
  by eapply Forall_forall in Hx.
Qed.

(** At most one element carries a given key when the keys are distinct. *)
Lemma filter_key_short {A B} `{!EqDecision B} (f : A → B) (k : B) l :
  NoDup (f <$> l) → length (filter (λ x, f x = k) l) ≤ 1.
Proof.
  induction l as [|x l IH]; simpl; [lia|].
  rewrite NoDup_cons. intros [Hx Hl]. rewrite filter_cons.
  case_decide as Hk; [|by apply IH]. simpl.
  assert (filter (λ y, f y = k) l = []) as ->; [|simpl; lia].
  apply filter_none. intros y Hy Hyk. apply Hx.
  rewrite Hk, <-Hyk. by apply list_elem_of_fmap_2.
Qed.

Lemma filter_comm {A} (P Q : A → Prop)
    `{!∀ x, Decision (P x), !∀ x, Decision (Q x)} (l : list A) :
  filter Q (filter P l) = filter P (filter Q l).
Proof. rewrite !list_filter_filter. apply list_filter_iff. tauto. Qed.

Lemma Permutation_short {A} (l1 l2 : list A) :
  l1 ≡ₚ l2 → length l1 ≤ 1 → l1 = l2.
Proof.
  intros Hperm Hlen. destruct l1 as [|x [|y l1]]; simpl in Hlen; [| |lia].
  - by apply Permutation_nil_l in Hperm.
  - by apply Permutation_singleton_l in Hperm.
Qed.

Section SorterExtras.
Variable Date_getTime : string → option Z.

(** X1: when every date parses and there is at least one post, the first
    record of the output is a record of the input and no record of the
    input is more recent than it. *)
Theorem sortPostsByDate_head_newest (posts : list BlogPostMeta) :
  Forall (valid_date Date_getTime) posts →
  posts ≠ [] →
  ∃ p rest,
    sortPostsByDate Date_getTime posts = p :: rest ∧
    p ∈ posts ∧
    ∀ q, q ∈ posts →
      ∃ tp tq, getTime Date_getTime p = Some tp ∧
               getTime Date_getTime q = Some tq ∧ (tq ≤ tp)%Z.
Proof.
  intros Hvalid Hne.
  pose proof (array_sort_perm (compareByDate Date_getTime) posts) as Hperm.
  fold (sortPostsByDate Date_getTime posts) in Hperm.
  pose proof (descending_StronglySorted Date_getTime _
                (sortPostsByDate_descending_valid Date_getTime posts Hvalid))
    as Hsorted.
  destruct (sortPostsByDate Date_getTime posts) as [|p rest] eqn:Hs.
  { apply Permutation_nil_l in Hperm. by subst. }
  exists p, rest. split; [done|].
  assert (Hp : p ∈ posts) by (rewrite <-Hperm; left).
  split; [done|]. intros q Hq.
  destruct (proj1 (Forall_forall _ _) Hvalid p Hp) as [tp Htp].
  rewrite <-Hperm in Hq. apply elem_of_cons in Hq as [->|Hq].
  - exists tp, tp. repeat split; [done..|lia].
  - apply StronglySorted_inv in Hsorted as [_ Hall].
    eapply Forall_forall in Hall; [|done]. unfold date_ge in Hall.
    rewrite Htp in Hall.
    destruct (getTime Date_getTime q) as [tq|] eqn:Htq; [|done].
    by exists tp, tq.
Qed.

Lemma sortPostsByDate_perm_distinct (posts posts' : list BlogPostMeta) :
  Forall (valid_date Date_getTime) posts →
  NoDup (getTime Date_getTime <$> posts) →
  posts ≡ₚ posts' →
  sortPostsByDate Date_getTime posts = sortPostsByDate Date_getTime posts'.
Proof.
  intros Hvalid Hdistinct Hperm.
  apply sortPostsByDate_unique.
  - by rewrite <-Hperm.
  - unfold sortPostsByDate. by rewrite array_sort_perm.
  - by apply sortPostsByDate_descending_valid.
  - intros d. rewrite sortPostsByDate_dated by done. unfold dated.
    apply Permutation_short; [by rewrite Hperm|].
    by apply (filter_key_short (getTime Date_getTime)).
Qed.

(** X2: when every date parses and no two posts share a date, the output
    does not depend on the order of the input. *)
Theorem sortPostsByDate_order_independent (posts posts' : list BlogPostMeta) :
  Forall (valid_date Date_getTime) posts →
  NoDup (getTime Date_getTime <$> posts) →
  posts ≡ₚ posts' →
  sortPostsByDate Date_getTime posts = sortPostsByDate Date_getTime posts'.
Proof. apply sortPostsByDate_perm_distinct. Qed.

(** X3: when every date parses, the output is the one and only array
    that is a permutation of the input, in descending order of date, with
    the records of each date in their input order. *)
Theorem sortPostsByDate_characterised (posts sorted : list BlogPostMeta) :
  Forall (valid_date Date_getTime) posts →
  sorted = sortPostsByDate Date_getTime posts ↔
  sorted ≡ₚ posts ∧
  descending Date_getTime sorted ∧
  ∀ d, dated Date_getTime d sorted = dated Date_getTime d posts.
Proof.
  intros Hvalid. split.
  - intros ->. split; [apply array_sort_perm|]. split.
    + by apply sortPostsByDate_descending_valid.
    + intros d. by apply sortPostsByDate_dated.
  - intros (Hperm & Hdesc & Hstable). by apply sortPostsByDate_unique.
Qed.

(** X4: when every date parses, selecting posts and sorting commute:
    filtering the sorted array gives the sorted array of the filtered
    posts. *)
Theorem sortPostsByDate_filter (P : BlogPostMeta → Prop)
    `{!∀ p, Decision (P p)} (posts : list BlogPostMeta) :
  Forall (valid_date Date_getTime) posts →
  filter P (sortPostsByDate Date_getTime posts)
  = sortPostsByDate Date_getTime (filter P posts).
Proof.
  intros Hvalid.
  assert (Hvalid' : Forall (valid_date Date_getTime) (filter P posts)).
  { apply Forall_forall. intros p Hp. apply list_elem_of_filter in Hp as [_ Hp].
    by eapply Forall_forall in Hvalid. }
  apply (dated_unique Date_getTime).
  - apply StronglySorted_filter, descending_StronglySorted.
    by apply sortPostsByDate_descending_valid.
  - by apply descending_StronglySorted, sortPostsByDate_descending_valid.
  - apply Forall_forall. intros p Hp. apply list_elem_of_filter in Hp as [_ Hp].
    unfold sortPostsByDate in Hp. rewrite array_sort_perm in Hp.
    by eapply Forall_forall in Hvalid.
  - unfold sortPostsByDate. by rewrite array_sort_perm.
  - intros d. rewrite sortPostsByDate_dated by done. unfold dated.
    rewrite (filter_comm P), (filter_comm P).
    f_equal. by apply sortPostsByDate_dated.
Qed.

(** X5: when all posts have the same date, or the date of none of them
    parses, the output is the input in its order. *)
Theorem sortPostsByDate_all_tied (posts : list BlogPostMeta) (t : option Z) :
  Forall (λ p, getTime Date_getTime p = t) posts →
  sortPostsByDate Date_getTime posts = posts.
Proof.
  intros Hall. apply array_sort_ties. intros p q Hp Hq.
  unfold SortCompare, compareByDate.
  rewrite (proj1 (Forall_forall _ _) Hall p Hp),
    (proj1 (Forall_forall _ _) Hall q Hq).
  destruct t; simpl; [f_equal|]; lia.
Qed.
End SorterExtras.

(* ===================================================================== *)
(** * Further properties of the loader *)
(* ===================================================================== *)

Lemma endsWith_nonempty file : endsWith file ".mdx" = true → file ≠ "".
Proof. intros H ->. by vm_compute in H. Qed.

(** A file of a directory is not the directory. *)
Lemma path_join_longer dir file :
  dir ≠ "" → file ≠ "" → path_join dir file ≠ dir.
Proof.
  intros Hdir Hfile Heq. unfold path_join in Heq.
  rewrite bool_decide_eq_false_2 in Heq by done.
  apply (f_equal list_ascii_of_string), (f_equal length) in Heq.
  destruct file as [|c file]; [done|].
  destruct (endsWith dir "/");
    rewrite !list_ascii_of_string_app, !length_app in Heq; simpl in Heq; lia.
Qed.

Lemma path_join_inj dir a b : path_join dir a = path_join dir b → a = b.
Proof.
  unfold path_join. case_bool_decide; [done|].
  destruct (endsWith dir "/"); intros Heq;
    repeat apply String.app_inj in Heq; done.
Qed.

Lemma array_map_ext {A B} (f g : A → IO B) l out :
  (∀ x out', x ∈ l → f x out' = g x out') →
  array_map f l out = array_map g l out.
Proof.
  revert out. induction l as [|x l IH]; intros out Hfg; [done|]. simpl.
  unfold mbind, IO_bind. rewrite Hfg by left.
  destruct (g x out) as [[y|e] out1]; [|done].
  fold (@IO_bind). unfold mbind, IO_bind.
  rewrite IH; [done|]. intros z out' Hz. apply Hfg. by right.
Qed.

Lemma Forall2_fun_eq {A B} (R : A → B → Prop) l k k' :
  (∀ x y y', R x y → R x y' → y = y') →
  Forall2 R l k → Forall2 R l k' → k = k'.
Proof.
  intros Hfun H. revert k'.
  induction H as [|x y l k Hxy _ IH]; intros k' H'.
  - by apply Forall2_nil_inv_l in H'.
  - apply Forall2_cons_inv_l in H' as (y' & k'' & Hxy' & H' & ->).
    f_equal; [by eapply Hfun|by apply IH].
Qed.

(** A function applied to a permuted list gives a permuted list. *)
Lemma Forall2_fun_perm {A B} (R : A → B → Prop) l l' k k' :
  (∀ x y y', R x y → R x y' → y = y') →
  (∀ x, ∃ y, R x y) →
  l ≡ₚ l' → Forall2 R l k → Forall2 R l' k' → k ≡ₚ k'.
Proof.
  intros Hfun Htot Hperm. revert k k'.
  induction Hperm as [|x l l' _ IH|x y l|l l' l'' _ IH1 _ IH2];
    intros k k' Hk Hk'.
  - apply Forall2_nil_inv_l in Hk, Hk'. by subst.
  - apply Forall2_cons_inv_l in Hk as (y & k1 & Hy & Hk & ->).
    apply Forall2_cons_inv_l in Hk' as (y' & k1' & Hy' & Hk' & ->).
    rewrite (Hfun _ _ _ Hy Hy'). f_equiv. by apply IH.
  - apply Forall2_cons_inv_l in Hk as (b & k1 & Hb & Hk & ->).
    apply Forall2_cons_inv_l in Hk as (a & k2 & Ha & Hk & ->).
    apply Forall2_cons_inv_l in Hk' as (a' & k1' & Ha' & Hk' & ->).
    apply Forall2_cons_inv_l in Hk' as (b' & k2' & Hb' & Hk' & ->).
    rewrite (Hfun _ _ _ Ha Ha'), (Hfun _ _ _ Hb Hb').
    rewrite (Forall2_fun_eq R l k2 k2' Hfun Hk Hk'). apply Permutation_swap.
  - assert (∃ k'', Forall2 R l' k'') as [k'' Hk''].
    { clear -Htot. induction l' as [|x l' [k IH]]; [by exists []|].
      destruct (Htot x) as [y Hy]. exists (y :: k). by constructor. }
    etrans; [by apply IH1|by apply IH2].
Qed.

Section LoaderExtras.
Variable cwd : string.
Variable matter : string → Completion (Frontmatter * string).
Variable validateFrontmatter : Frontmatter → ValidationResult.
Variable calculateReadingTime : string → Z.
Variable Date_getTime : string → option Z.

Abbreviation load fs :=
  (getBlogPosts cwd fs matter validateFrontmatter calculateReadingTime
     Date_getTime).
Abbreviation parse fs :=
  (parsePostFile fs matter validateFrontmatter calculateReadingTime).
Abbreviation outcome fs :=
  (file_outcome fs matter validateFrontmatter calculateReadingTime).

(** [parsePostFile] reads the file system at one path only. *)
Lemma parsePostFile_ext (fs fs' : FileSystem) filePath lc out :
  fs !! filePath = fs' !! filePath →
  parse fs filePath lc out = parse fs' filePath lc out.
Proof.
  intros Heq. unfold parsePostFile, readFileSync. by rewrite Heq.
Qed.

Lemma file_outcome_fun (fs : FileSystem) filePath lc o o' lines lines' :
  outcome fs filePath lc o lines → outcome fs filePath lc o' lines' →
  o = o' ∧ lines = lines'.
Proof.
  intros H1 H2.
  destruct (parsePostFile_outcome fs matter validateFrontmatter
              calculateReadingTime filePath lc []) as (o0 & l0 & Hrun & _).
  assert (Hdet : ∀ o1 l1, outcome fs filePath lc o1 l1 →
                          parse fs filePath lc [] = (Normal o1, l1)).
  { intros o1 l1 Ho.
    unfold parsePostFile, try_catch, mbind, IO_bind, lift, console_error,
      mret, IO_ret.
    inversion Ho as [e Hr|c e Hr Hm|c fm body Hr Hm Hv
                    |c fm body p Hr Hm Hv]; subst; rewrite Hr; simpl.
    - done.
    - by rewrite Hm.
    - rewrite Hm. simpl. by rewrite Hv.
    - rewrite Hm. simpl. rewrite Hv. simpl.
      destruct p; simpl in *. by subst. }
  pose proof (Hdet _ _ H1) as E1. pose proof (Hdet _ _ H2) as E2.
  rewrite E1 in E2. by injection E2.
Qed.

(** X6: [parsePostFile] never throws. It returns either a record, with
    the locale it was given and the slug of the path, and then writes
    nothing; or [null], and then writes exactly one line, which names the
    file. *)
Theorem parsePostFile_null_or_record (fs : FileSystem) (filePath : string)
    (lc : Locale) (out : list ConsoleLine) :
  ∃ o lines,
    parse fs filePath lc out = (Normal o, out ++ lines) ∧
    match o with
    | Some p =>
        lines = [] ∧ locale p = lc ∧ slug p = path_basename filePath ".mdx"
    | None =>
        ∃ before after detail,
          lines = [ErrorLine (before +:+ filePath +:+ after) detail]
    end.
Proof.
  destruct (parsePostFile_outcome fs matter validateFrontmatter
              calculateReadingTime filePath lc out) as (o & lines & Hrun & Ho).
  exists o, lines. split; [done|].
  inversion Ho; subst; try by eexists _, _, _.
  done.
Qed.

(** X7: when the content path of the locale exists and is a regular
    file, the existence check passes, [readdirSync] throws, and the
    exception reaches the caller; nothing is written to the console. *)
Theorem getBlogPosts_regular_file_throws (fs : FileSystem) (lc : Locale)
    (content : string) (out : list ConsoleLine) :
  fs !! getPostsDirectory cwd lc = Some (RegularFile content) →
  existsSync fs (getPostsDirectory cwd lc) = true ∧
  load fs lc out = (Throw (ENOTDIR (getPostsDirectory cwd lc)), out).
Proof.
  intros Hdir. split.
  - unfold existsSync. rewrite Hdir. by apply bool_decide_eq_true_2.
  - by apply (getBlogPosts_not_a_directory _ _ _ _ _ _ lc content).
Qed.

Lemma outcomes_count (fs : FileSystem) dir lc files
    (outcomes : list (option BlogPostMeta * list ConsoleLine)) :
  Forall2 (λ file o, outcome fs (path_join dir file) lc o.1 o.2)
    files outcomes →
  length (omap fst outcomes) + length (concat (outcomes.*2)) = length files.
Proof.
  induction 1 as [|file [o lines] files outcomes Ho _ IH]; [done|].
  simpl in Ho.
  assert (Hcase : (o = None ∧ length lines = 1) ∨ (is_Some o ∧ lines = []))
    by (inversion Ho; subst; eauto).
  rewrite fmap_cons. cbn [snd concat]. rewrite length_app.
  destruct Hcase as [[-> Hl]|[[p ->] ->]].
  - change (omap fst ((None, lines) :: outcomes)) with (omap fst outcomes).
    cbn [length]. lia.
  - change (omap fst ((Some p, []) :: outcomes)) with (p :: omap fst outcomes).
    cbn [length]. lia.
Qed.

(** X8: on a directory, every entry with the content extension is
    accounted for once: the number of records returned plus the number of
    lines written equals the number of such entries. *)
Theorem getBlogPosts_accounts_for_every_file (fs : FileSystem) (lc : Locale)
    (entries : list string) (out : list ConsoleLine) :
  fs !! getPostsDirectory cwd lc = Some (Directory entries) →
  ∃ posts lines,
    load fs lc out = (Normal posts, out ++ lines) ∧
    length posts + length lines
    = length (filter (λ file, endsWith file ".mdx") entries).
Proof.
  intros Hdir.
  destruct (getBlogPosts_directory cwd fs matter validateFrontmatter
              calculateReadingTime Date_getTime lc entries out Hdir)
    as (outcomes & Hall & Hrun).
  eexists _, _. split; [exact Hrun|].
  unfold sortPostsByDate. rewrite array_sort_perm.
  by eapply outcomes_count.
Qed.

(** X9: entries without the content extension have no influence: a
    directory listing with the same [.mdx] entries in the same order gives
    the same result and the same console output. *)
Theorem getBlogPosts_ignores_other_entries (fs : FileSystem) (lc : Locale)
    (entries entries' : list string) (out : list ConsoleLine) :
  fs !! getPostsDirectory cwd lc = Some (Directory entries) →
  filter (λ file, endsWith file ".mdx") entries'
  = filter (λ file, endsWith file ".mdx") entries →
  load (<[getPostsDirectory cwd lc := Directory entries']> fs) lc out
  = load fs lc out.
Proof.
  intros Hdir Hfiles. unfold getBlogPosts, existsSync, readdirSync.
  rewrite lookup_insert_eq, Hdir.
  rewrite !bool_decide_eq_true_2 by eauto. simpl.
  unfold mbind at 1 3, IO_bind, lift. simpl. rewrite Hfiles.
  unfold mbind, IO_bind.
  rewrite (array_map_ext _
    (λ file, parse fs (path_join (getPostsDirectory cwd lc) file) lc)); [done|].
  intros file out' Hfile. apply parsePostFile_ext.
  apply list_elem_of_filter in Hfile as [Hext _].
  apply lookup_insert_ne. intros Heq. symmetry in Heq. revert Heq.
  apply path_join_longer; [apply getPostsDirectory_nonempty|].
  by apply endsWith_nonempty, Is_true_eq_true.
Qed.

Lemma file_outcome_ext (fs fs' : FileSystem) filePath lc o lines :
  fs !! filePath = fs' !! filePath →
  outcome fs filePath lc o lines → outcome fs' filePath lc o lines.
Proof.
  intros Heq Ho.
  assert (Hread : readFileSync fs' filePath = readFileSync fs filePath)
    by (unfold readFileSync; by rewrite Heq).
  inversion Ho; subst.
  - apply outcome_unreadable. by rewrite Hread.
  - eapply outcome_unparsable; [by rewrite Hread|done].
  - eapply outcome_invalid; [by rewrite Hread|done..].
  - eapply outcome_post; [by rewrite Hread|done..].
Qed.

(** The file a record comes from is named after its slug. *)
Lemma file_outcome_slug (fs : FileSystem) dir file lc p lines :
  dir ≠ "" → entry_name file → endsWith file ".mdx" = true → file ≠ ".mdx" →
  outcome fs (path_join dir file) lc (Some p) lines →
  file = slug p +:+ ".mdx".
Proof.
  intros Hdir Hname Hext Hdot Ho.
  destruct (path_basename_entry dir file Hdir Hname Hext)
    as (stem & Hstem & Hbase).
  inversion Ho; subst.
  case_bool_decide as Hs; [by subst|]. congruence.
Qed.

Lemma outcomes_slugs (fs : FileSystem) dir lc files
    (outcomes : list (option BlogPostMeta * list ConsoleLine)) :
  dir ≠ "" →
  Forall (λ file, entry_name file ∧ endsWith file ".mdx" = true
                  ∧ file ≠ ".mdx") files →
  Forall2 (λ file o, outcome fs (path_join dir file) lc o.1 o.2)
    files outcomes →
  Forall (λ p, slug p +:+ ".mdx" ∈ files) (omap fst outcomes) ∧
  (NoDup files → NoDup (slug <$> omap fst outcomes)).
Proof.
  intros Hdir Hgood Hall.
  induction Hall as [|file [o lines] files outcomes Ho _ IH].
  { split; [constructor|]. intros _. constructor. }
  apply Forall_cons in Hgood as [(Hname & Hext & Hdot) Hgood].
  destruct (IH Hgood) as [IH1 IH2]. simpl in Ho.
  destruct o as [p|].
  - change (omap fst ((Some p, lines) :: outcomes))
      with (p :: omap fst outcomes).
    pose proof (file_outcome_slug fs dir file lc p lines Hdir Hname Hext
                  Hdot Ho) as Hfile.
    split.
    + constructor; [rewrite <-Hfile; left|].
      eapply Forall_impl; [exact IH1|]. intros q Hq. by right.
    + rewrite fmap_cons. intros [Hnotin Hnodup]%NoDup_cons.
      apply NoDup_cons. split; [|by apply IH2].
      intros (q & Hslug & Hq)%list_elem_of_fmap.
      apply Hnotin. rewrite Hfile, Hslug.
      by eapply Forall_forall in IH1.
  - change (omap fst ((None, lines) :: outcomes)) with (omap fst outcomes).
    split.
    + eapply Forall_impl; [exact IH1|]. intros q Hq. by right.
    + intros [_ Hnodup]%NoDup_cons. by apply IH2.
Qed.

Lemma outcomes_ext (fs fs' : FileSystem) dir lc files
    (outcomes : list (option BlogPostMeta * list ConsoleLine)) :
  (∀ file, file ∈ files →
     fs' !! path_join dir file = fs !! path_join dir file) →
  Forall2 (λ file o, outcome fs' (path_join dir file) lc o.1 o.2)
    files outcomes →
  Forall2 (λ file o, outcome fs (path_join dir file) lc o.1 o.2)
    files outcomes.
Proof.
  intros Hsame Hall. induction Hall as [|file o files outcomes Ho _ IH].
  - constructor.
  - constructor.
    + eapply file_outcome_ext; [|exact Ho]. apply Hsame. left.
    + apply IH. intros f Hf. apply Hsame. by right.
Qed.

(** X10: in a directory whose entries are distinct names, none of them
    just [.mdx], the records returned have pairwise distinct slugs. *)
Theorem getBlogPosts_slugs_distinct (fs : FileSystem) (lc : Locale)
    (entries : list string) (out out' : list ConsoleLine)
    (posts : list BlogPostMeta) :
  fs !! getPostsDirectory cwd lc = Some (Directory entries) →
  Forall entry_name entries → NoDup entries → ".mdx" ∉ entries →
  load fs lc out = (Normal posts, out') →
  NoDup (slug <$> posts).
Proof.
  intros Hdir Hnames Hnodup Hdot Hrun.
  destruct (getBlogPosts_directory cwd fs matter validateFrontmatter
              calculateReadingTime Date_getTime lc entries out Hdir)
    as (outcomes & Hall & Hrun').
  rewrite Hrun' in Hrun. injection Hrun as <- _.
  unfold sortPostsByDate. rewrite array_sort_perm.
  eapply outcomes_slugs; [apply getPostsDirectory_nonempty| |exact Hall|].
  - apply Forall_forall. intros file Hfile.
    apply list_elem_of_filter in Hfile as [Hext Hin].
    split; [by eapply Forall_forall in Hnames|].
    split; [by apply Is_true_eq_true|]. by intros ->.
  - by apply NoDup_filter.
Qed.

(** X11: when every returned date parses and no two returned posts
    share a date, the array returned does not depend on the order in
    which the directory lists its entries. *)
Theorem getBlogPosts_listing_order_irrelevant (fs : FileSystem) (lc : Locale)
    (entries entries' : list string) (out out1 : list ConsoleLine)
    (posts : list BlogPostMeta) :
  fs !! getPostsDirectory cwd lc = Some (Directory entries) →
  entries' ≡ₚ entries →
  load fs lc out = (Normal posts, out1) →
  Forall (valid_date Date_getTime) posts →
  NoDup (getTime Date_getTime <$> posts) →
  ∃ out2,
    load (<[getPostsDirectory cwd lc := Directory entries']> fs) lc out
    = (Normal posts, out2).
Proof.
  intros Hdir Hperm Hrun Hvalid Hdistinct.
  set (dir := getPostsDirectory cwd lc) in *.
  set (fs' := <[dir := Directory entries']> fs).
  set (mdx := λ file : string, Is_true (endsWith file ".mdx")).
  destruct (getBlogPosts_directory cwd fs matter validateFrontmatter
              calculateReadingTime Date_getTime lc entries out Hdir)
    as (outcomes & Hall & Hrun1).
  fold dir in Hall, Hrun1. rewrite Hrun1 in Hrun. injection Hrun as <- _.
  assert (Hdir' : fs' !! dir = Some (Directory entries'))
    by apply lookup_insert_eq.
  destruct (getBlogPosts_directory cwd fs' matter validateFrontmatter
              calculateReadingTime Date_getTime lc entries' out Hdir')
    as (outcomes' & Hall' & Hrun2).
  fold dir in Hall', Hrun2.
  exists (out ++ concat (outcomes'.*2)). rewrite Hrun2. f_equal. f_equal.
  assert (Hall'' :
    Forall2 (λ file o, outcome fs (path_join dir file) lc o.1 o.2)
      (filter mdx entries') outcomes').
  { eapply outcomes_ext; [|exact Hall']. intros file Hfile.
    apply list_elem_of_filter in Hfile as [Hext _].
    apply lookup_insert_ne. intros Heq. symmetry in Heq. revert Heq.
    apply path_join_longer; [apply getPostsDirectory_nonempty|].
    by apply endsWith_nonempty, Is_true_eq_true. }
  assert (Hout : outcomes' ≡ₚ outcomes).
  { eapply (Forall2_fun_perm _ (filter mdx entries') (filter mdx entries));
      [| |by rewrite Hperm|exact Hall''|exact Hall].
    - intros file [o l] [o' l'] H1 H2. simpl in *.
      destruct (file_outcome_fun fs _ lc o o' l l' H1 H2) as [-> ->]. done.
    - intros file.
      destruct (parsePostFile_outcome fs matter validateFrontmatter
                  calculateReadingTime (path_join dir file) lc [])
        as (o & l & _ & Ho).
      by exists (o, l). }
  assert (Hrecords : omap fst outcomes' ≡ₚ omap fst outcomes)
    by (by rewrite Hout).
  unfold sortPostsByDate in Hvalid, Hdistinct.
  rewrite array_sort_perm in Hvalid, Hdistinct.
  symmetry. by apply sortPostsByDate_perm_distinct.
Qed.

(** X12: distinct locales are read from distinct directories. *)
Theorem getPostsDirectory_inj (lc lc' : Locale) :
  getPostsDirectory cwd lc = getPostsDirectory cwd lc' → lc = lc'.
Proof.
  intros Heq. apply path_join_inj in Heq.
  by destruct lc, lc'.
Qed.
End LoaderExtras.

(* ===================================================================== *)
(** * Properties of the subset selector *)
(* ===================================================================== *)

(** The Numbers of the examples satisfy the laws. *)
Lemma ExactNumber_laws : NumberLaws ExactNumber.
Proof.
  split; try done.
  - by intros [|a].
  - by intros [|a].
  - intros x. by apply bool_decide_eq_true_2.
Qed.

Section SubsetFacts.
Context `{NumberLaws Number} {KanaGroup : Type}.
Variable kana : list KanaGroup.
Variable sliceRange : list Number.

Lemma safe_integer_index (z : Z) : (0 ≤ z < 2 ^ 32)%Z → safe_integer z.
Proof. unfold safe_integer, MAX_SAFE_INTEGER. lia. Qed.

(** A displayed row is the row of the table at its global index. *)
Lemma kanaGroups_lookup (lo : Z) (i : nat) (g : KanaGroup) :
  sliceRange !! 0 = Some (of_Z lo) → (0 ≤ lo)%Z → safe_integer lo →
  kanaGroups kana sliceRange !! i = Some g →
  kana !! Z.to_nat (Z.of_nat i + lo) = Some g.
Proof.
  intros Hlo Hpos Hsafe Hrow. unfold kanaGroups, array_slice in Hrow.
  rewrite Hlo in Hrow. simpl in Hrow.
  rewrite ToIntegerOrInfinity_of_Z in Hrow by done.
  apply lookup_take_Some in Hrow as [Hrow _].
  rewrite lookup_drop in Hrow.
  pose proof (lookup_lt_Some _ _ _ Hrow) as Hlt.
  unfold slice_bound in Hrow, Hlt.
  rewrite (proj2 (Z.ltb_ge _ _) Hpos) in Hrow, Hlt.
  replace (Z.to_nat (Z.of_nat i + lo))
    with (Z.to_nat (Z.min lo (Z.of_nat (length kana))) + i) by lia.
  done.
Qed.

Lemma kanaGroups_length (lo hi : Z) :
  sliceRange !! 0 = Some (of_Z lo) → sliceRange !! 1 = Some (of_Z hi) →
  (0 ≤ lo)%Z → (0 ≤ hi)%Z → safe_integer lo → safe_integer hi →
  (Z.of_nat (length (kanaGroups kana sliceRange)) ≤ Z.max 0 (hi - lo))%Z ∧
  (Z.of_nat (length (kanaGroups kana sliceRange))
   ≤ Z.max 0 (Z.of_nat (length kana) - lo))%Z ∧
  ((hi ≤ Z.of_nat (length kana))%Z →
   Z.of_nat (length (kanaGroups kana sliceRange)) = Z.max 0 (hi - lo)).
Proof.
  intros Hlo Hhi Hpos Hpos' Hsafe Hsafe'. unfold kanaGroups, array_slice.
  rewrite Hlo, Hhi. simpl. rewrite !ToIntegerOrInfinity_of_Z by done.
  rewrite length_take, length_drop. unfold slice_bound.
  rewrite (proj2 (Z.ltb_ge _ _) Hpos), (proj2 (Z.ltb_ge _ _) Hpos'). lia.
Qed.

(** What "select all" hands over when the bounds are integers and no
    more than [2^32 - 1] apart. *)
Lemma selectAllInSubset_integers (lo hi : Z) :
  sliceRange !! 0 = Some (of_Z lo) → sliceRange !! 1 = Some (of_Z hi) →
  (0 ≤ lo ≤ hi)%Z → safe_integer hi → (hi - lo ≤ 2 ^ 32 - 1)%Z →
  selectAllInSubset sliceRange = Some (of_Z <$> seqZ lo (hi - lo)).
Proof.
  intros Hlo Hhi Hrange Hsafe Hlen.
  assert (Hsafe' : safe_integer lo) by (unfold safe_integer in *; lia).
  unfold selectAllInSubset, Array_from, ToLength. rewrite Hlo, Hhi. simpl.
  rewrite Number_subtract_of_Z, ToIntegerOrInfinity_of_Z;
    [|unfold safe_integer, MAX_SAFE_INTEGER in *; lia..|done|done|
      unfold safe_integer, MAX_SAFE_INTEGER in *; lia].
  assert (Hlength : (if (hi - lo <=? 0)%Z then 0%Z
                     else Z.min (hi - lo) MAX_SAFE_INTEGER) = (hi - lo)%Z).
  { destruct (Z.leb_spec (hi - lo) 0); unfold MAX_SAFE_INTEGER; lia. }
  rewrite Hlength, (proj2 (Z.ltb_ge _ _)) by lia. f_equal.
  rewrite <-(Z.add_0_r lo) at 2. rewrite <-fmap_add_seqZ, <-list_fmap_compose.
  apply list_fmap_ext. intros i k Hk. simpl.
  apply lookup_seqZ in Hk as [-> Hi].
  apply Number_add_of_Z; unfold safe_integer, MAX_SAFE_INTEGER in *; lia.
Qed.

(** X13: with a range that starts at a non-negative integer, the index a
    checkbox hands to the store is the position in the kana table of the
    row the checkbox is displayed with. *)
Theorem getGlobalIndex_row (lo : Z) (i : nat) (g : KanaGroup) :
  (Z.of_nat (length kana) < 2 ^ 32)%Z →
  sliceRange !! 0 = Some (of_Z lo) → (0 ≤ lo)%Z → safe_integer lo →
  kanaGroups kana sliceRange !! i = Some g →
  getGlobalIndex sliceRange (of_Z (Z.of_nat i)) = of_Z (Z.of_nat i + lo) ∧
  (0 ≤ Z.of_nat i + lo)%Z ∧
  kana !! Z.to_nat (Z.of_nat i + lo) = Some g.
Proof.
  intros Hlen Hlo Hpos Hsafe Hrow.
  pose proof (kanaGroups_lookup lo i g Hlo Hpos Hsafe Hrow) as Hg.
  pose proof (lookup_lt_Some _ _ _ Hg) as Hlt.
  split; [|split; [lia|done]].
  unfold getGlobalIndex. rewrite Hlo. simpl.
  apply Number_add_of_Z; [|done|]; apply safe_integer_index; lia.
Qed.

(** X14: with integer bounds inside the table, the indices "select all"
    hands to the store are the positions of the displayed rows, one for
    each row and in the order of display. *)
Theorem selectAllInSubset_rows (lo hi : Z) :
  (Z.of_nat (length kana) < 2 ^ 32)%Z →
  sliceRange !! 0 = Some (of_Z lo) → sliceRange !! 1 = Some (of_Z hi) →
  (0 ≤ lo ≤ hi)%Z → (hi ≤ Z.of_nat (length kana))%Z →
  selectAllInSubset sliceRange = Some (of_Z <$> seqZ lo (hi - lo)) ∧
  Forall2 (λ gi g, (0 ≤ gi)%Z ∧ kana !! Z.to_nat gi = Some g)
    (seqZ lo (hi - lo)) (kanaGroups kana sliceRange).
Proof.
  intros Hsize Hlo Hhi [Hpos Hle] Hlen.
  assert (Hsafe : safe_integer lo) by (apply safe_integer_index; lia).
  assert (Hsafe' : safe_integer hi).
  { unfold safe_integer, MAX_SAFE_INTEGER. lia. }
  split; [apply selectAllInSubset_integers; [done|done|lia|done|lia]|].
  destruct (kanaGroups_length lo hi Hlo Hhi) as (_ & _ & Hrows); [lia..|done|done|].
  specialize (Hrows Hlen).
  apply Forall2_same_length_lookup_2.
  { rewrite length_seqZ. lia. }
  intros i gi g Hgi Hg. apply lookup_seqZ in Hgi as [-> _].
  split; [lia|].
  replace (lo + Z.of_nat i)%Z with (Z.of_nat i + lo)%Z by lia.
  by eapply kanaGroups_lookup.
Qed.

(** X15: with integer bounds inside the table, once the store holds the
    indices that "select all" handed to it, every displayed row is
    checked. *)
Theorem selectAllInSubset_checks_rows (kanaGroupIndices indices : list Number)
    (lo hi : Z) (i : nat) :
  (Z.of_nat (length kana) < 2 ^ 32)%Z →
  sliceRange !! 0 = Some (of_Z lo) → sliceRange !! 1 = Some (of_Z hi) →
  (0 ≤ lo ≤ hi)%Z → (hi ≤ Z.of_nat (length kana))%Z →
  selectAllInSubset sliceRange = Some indices →
  indices ⊆ kanaGroupIndices →
  i < length (kanaGroups kana sliceRange) →
  isChecked sliceRange kanaGroupIndices (of_Z (Z.of_nat i)) = true.
Proof.
  intros Hsize Hlo Hhi [Hpos Hle] Hlen Hrun Hsub Hi.
  assert (Hsafe : safe_integer lo) by (apply safe_integer_index; lia).
  assert (Hsafe' : safe_integer hi).
  { unfold safe_integer, MAX_SAFE_INTEGER. lia. }
  rewrite selectAllInSubset_integers with (lo := lo) (hi := hi) in Hrun
    by (done || lia).
  injection Hrun as <-.
  destruct (kanaGroups_length lo hi Hlo Hhi) as (Hrows & _ & _); [lia..|done|done|].
  unfold isChecked, getGlobalIndex, array_includes. rewrite Hlo. simpl.
  rewrite Number_add_of_Z; [|apply safe_integer_index; lia|done|
                             apply safe_integer_index; lia].
  apply existsb_exists. exists (of_Z (Z.of_nat i + lo)).
  split; [|apply SameValueZero_same].
  apply list_elem_of_In, Hsub, list_elem_of_fmap_2, elem_of_seqZ. lia.
Qed.

(** X16: the indices of "select all" are not clamped to the table: with
    integer bounds and a range that ends beyond the last row, an index
    that is the position of no row is handed to the store, and more
    indices are handed over than rows are displayed. *)
Theorem selectAllInSubset_beyond_table (lo hi : Z) :
  sliceRange !! 0 = Some (of_Z lo) → sliceRange !! 1 = Some (of_Z hi) →
  (0 ≤ lo < hi)%Z → (Z.of_nat (length kana) < hi)%Z →
  safe_integer hi → (hi - lo ≤ 2 ^ 32 - 1)%Z →
  ∃ indices,
    selectAllInSubset sliceRange = Some indices ∧
    indices = of_Z <$> seqZ lo (hi - lo) ∧
    (hi - 1)%Z ∈ seqZ lo (hi - lo) ∧
    kana !! Z.to_nat (hi - 1) = None ∧
    length (kanaGroups kana sliceRange) < length indices.
Proof.
  intros Hlo Hhi Hrange Hbeyond Hsafe Hlen.
  assert (Hsafe' : safe_integer lo) by (unfold safe_integer in *; lia).
  exists (of_Z <$> seqZ lo (hi - lo)).
  split; [apply selectAllInSubset_integers; [done|done|lia|done|done]|].
  split; [done|]. split; [apply elem_of_seqZ; lia|].
  split; [apply lookup_ge_None; lia|].
  destruct (kanaGroups_length lo hi Hlo Hhi) as (_ & Hrows & _); [lia..|done|done|].
  rewrite length_fmap, length_seqZ. lia.
Qed.

(** X17: without a range, all rows of the table are displayed, the index
    of every row is [NaN], a row is checked when the store holds [NaN],
    and "select all" hands over the empty array. *)
Theorem empty_sliceRange (kanaGroupIndices : list Number) (i : Number) :
  sliceRange = [] →
  kanaGroups kana sliceRange = kana ∧
  getGlobalIndex sliceRange i = NaN ∧
  isChecked sliceRange kanaGroupIndices i
  = array_includes kanaGroupIndices NaN ∧
  (NaN ∈ kanaGroupIndices → isChecked sliceRange kanaGroupIndices i = true) ∧
  selectAllInSubset sliceRange = Some [].
Proof.
  intros ->.
  assert (Hindex : getGlobalIndex [] i = NaN).
  { unfold getGlobalIndex. simpl. apply Number_add_NaN. }
  split; [|split; [done|split; [|split]]].
  - unfold kanaGroups, array_slice. simpl.
    rewrite ToIntegerOrInfinity_NaN. unfold slice_bound. simpl.
    rewrite Z.min_l by lia. simpl.
    rewrite Z.sub_0_r, Nat2Z.id. apply firstn_all.
  - unfold isChecked. by rewrite Hindex.
  - intros Hin. unfold isChecked, array_includes. rewrite Hindex.
    apply existsb_exists. exists NaN.
    split; [by apply list_elem_of_In|apply SameValueZero_same].
  - unfold selectAllInSubset, Array_from, ToLength. simpl.
    by rewrite Number_subtract_NaN, ToIntegerOrInfinity_NaN.
Qed.
End SubsetFacts.

(** X18: for every row, the kana label and the romaji label always get
    classes of opposite visibility, and switching the display preference
    swaps the classes of the two labels. *)
Theorem getTextOpacity_complementary (displayKana isFocused isKana : bool) :
  getTextOpacity displayKana isFocused isKana
  ≠ getTextOpacity displayKana isFocused (negb isKana) ∧
  getTextOpacity (negb displayKana) isFocused isKana
  = getTextOpacity displayKana isFocused (negb isKana).
Proof. by destruct displayKana, isFocused, isKana. Qed.

(* ===================================================================== *)
(** * Properties of the date generator of the tests *)
(* ===================================================================== *)

Lemma dateArb_records_elem (year month day : Z) :
  (2020 ≤ year ≤ 2030)%Z → (1 ≤ month ≤ 12)%Z → (1 ≤ day ≤ 28)%Z →
  (year, month, day) ∈ dateArb_records.
Proof.
  intros Hy Hm Hd. unfold dateArb_records.
  apply list_elem_of_bind. exists year. split; [|apply elem_of_seqZ; lia].
  apply list_elem_of_bind. exists month. split; [|apply elem_of_seqZ; lia].
  apply list_elem_of_bind. exists day. split; [|apply elem_of_seqZ; lia].
  left.
Qed.

Lemma dateArb_records_parse :
  Forall (λ '(y, m, d),
            isoDate_getTime (dateArb_map y m d)
            = Some (daysFromCivil y m d * msPerDay)%Z)
    dateArb_records.
Proof.
  apply (bool_decide_unpack _). vm_compute. exact I.
Qed.

(** X19: every date string the generator of the tests builds (years 2020
    to 2030, months 1 to 12, days 1 to 28) is a date-only string of ten
    characters that parses, to midnight UTC of the day it names. *)
Theorem dateArb_map_parses (year month day : Z) :
  (2020 ≤ year ≤ 2030)%Z → (1 ≤ month ≤ 12)%Z → (1 ≤ day ≤ 28)%Z →
  isoDate_getTime (dateArb_map year month day)
  = Some (daysFromCivil year month day * msPerDay)%Z.
Proof.
  intros Hy Hm Hd.
  pose proof (dateArb_records_elem year month day Hy Hm Hd) as Hin.
  exact (proj1 (Forall_forall _ _) dateArb_records_parse _ Hin).
Qed.

(* ===================================================================== *)
(** * Worked examples for the further properties *)
(* ===================================================================== *)

Lemma sortPostsByDate_head_newest_witness :
  Forall (valid_date isoDate_getTime) [older_post; newer_post] ∧
  [older_post; newer_post] ≠ [] ∧
  ∃ p rest,
    sortPostsByDate isoDate_getTime [older_post; newer_post] = p :: rest ∧
    p ∈ [older_post; newer_post] ∧
    ∀ q, q ∈ [older_post; newer_post] →
      ∃ tp tq, getTime isoDate_getTime p = Some tp ∧
               getTime isoDate_getTime q = Some tq ∧ (tq ≤ tp)%Z.
Proof.
  split; [exact example_posts_valid|]. split; [discriminate|].
  apply sortPostsByDate_head_newest; [exact example_posts_valid|discriminate].
Defined.

Lemma example_posts_distinct :
  NoDup (getTime isoDate_getTime <$> [older_post; newer_post]).
Proof. apply (bool_decide_unpack _). vm_compute. exact I. Defined.

Lemma sortPostsByDate_order_independent_witness :
  Forall (valid_date isoDate_getTime) [older_post; newer_post] ∧
  NoDup (getTime isoDate_getTime <$> [older_post; newer_post]) ∧
  [older_post; newer_post] ≡ₚ [newer_post; older_post] ∧
  sortPostsByDate isoDate_getTime [older_post; newer_post]
  = sortPostsByDate isoDate_getTime [newer_post; older_post].
Proof.
  split; [exact example_posts_valid|].
  split; [exact example_posts_distinct|].
  split; [apply Permutation_swap|].
  apply sortPostsByDate_order_independent;
    [exact example_posts_valid|exact example_posts_distinct
    |apply Permutation_swap].
Defined.

Lemma sortPostsByDate_characterised_witness :
  Forall (valid_date isoDate_getTime) [older_post; newer_post] ∧
  ([newer_post; older_post]
   = sortPostsByDate isoDate_getTime [older_post; newer_post] ↔
   [newer_post; older_post] ≡ₚ [older_post; newer_post] ∧
   descending isoDate_getTime [newer_post; older_post] ∧
   ∀ d, dated isoDate_getTime d [newer_post; older_post]
        = dated isoDate_getTime d [older_post; newer_post]).
Proof.
  split; [exact example_posts_valid|].
  apply sortPostsByDate_characterised. exact example_posts_valid.
Defined.

(** Selecting the posts after the first of January. *)
Lemma sortPostsByDate_filter_witness :
  Forall (valid_date isoDate_getTime) [older_post; newer_post] ∧
  filter (λ p, p ≠ older_post)
    (sortPostsByDate isoDate_getTime [older_post; newer_post])
  = sortPostsByDate isoDate_getTime
      (filter (λ p, p ≠ older_post) [older_post; newer_post]).
Proof.
  split; [exact example_posts_valid|].
  apply sortPostsByDate_filter. exact example_posts_valid.
Defined.

(** Two posts without a date stay as they are. *)
Lemma sortPostsByDate_all_tied_witness :
  Forall (λ p, getTime isoDate_getTime p = None)
    [undated_post; example_post "Later" "later" "tomorrow"] ∧
  sortPostsByDate isoDate_getTime
    [undated_post; example_post "Later" "later" "tomorrow"]
  = [undated_post; example_post "Later" "later" "tomorrow"].
Proof.
  assert (H : Forall (λ p, getTime isoDate_getTime p = None)
                [undated_post; example_post "Later" "later" "tomorrow"])
    by (repeat constructor).
  split; [exact H|].
  exact (sortPostsByDate_all_tied isoDate_getTime _ None H).
Defined.

Lemma getBlogPosts_regular_file_throws_witness :
  blocked_fs !! getPostsDirectory example_cwd en
  = Some (RegularFile "not a directory") ∧
  existsSync blocked_fs (getPostsDirectory example_cwd en) = true ∧
  example_getBlogPosts blocked_fs en []
  = (Throw (ENOTDIR (getPostsDirectory example_cwd en)), []).
Proof.
  split; [vm_compute; reflexivity|].
  apply (getBlogPosts_regular_file_throws example_cwd example_matter
           validateFrontmatter_spec (calculateReadingTime_spec 200)
           isoDate_getTime blocked_fs en "not a directory").
  vm_compute; reflexivity.
Defined.

Lemma getBlogPosts_accounts_for_every_file_witness :
  example_fs !! getPostsDirectory example_cwd en
  = Some (Directory example_entries) ∧
  ∃ posts lines,
    example_getBlogPosts example_fs en [] = (Normal posts, [] ++ lines) ∧
    length posts + length lines
    = length (filter (λ file, endsWith file ".mdx") example_entries).
Proof.
  split; [vm_compute; reflexivity|].
  apply getBlogPosts_accounts_for_every_file. vm_compute; reflexivity.
Defined.

(** The example directory without its README. *)
Lemma getBlogPosts_ignores_other_entries_witness :
  example_fs !! getPostsDirectory example_cwd en
  = Some (Directory example_entries) ∧
  filter (λ file, endsWith file ".mdx")
    ["01-older.mdx"; "02-undated.mdx"; "03-newer.mdx"; "04-untitled.mdx"; "05-broken.mdx";
     "06-drafts.mdx"]
  = filter (λ file, endsWith file ".mdx") example_entries ∧
  getBlogPosts example_cwd
    (<[getPostsDirectory example_cwd en :=
         Directory ["01-older.mdx"; "02-undated.mdx"; "03-newer.mdx"; "04-untitled.mdx";
                    "05-broken.mdx"; "06-drafts.mdx"]]> example_fs)
    example_matter validateFrontmatter_spec (calculateReadingTime_spec 200)
    isoDate_getTime en []
  = getBlogPosts example_cwd example_fs example_matter
      validateFrontmatter_spec (calculateReadingTime_spec 200)
      isoDate_getTime en [].
Proof.
  assert (H1 : example_fs !! getPostsDirectory example_cwd en
               = Some (Directory example_entries))
    by (vm_compute; reflexivity).
  assert (H2 : filter (λ file, endsWith file ".mdx")
                 ["01-older.mdx"; "02-undated.mdx"; "03-newer.mdx"; "04-untitled.mdx";
                  "05-broken.mdx"; "06-drafts.mdx"]
               = filter (λ file, endsWith file ".mdx") example_entries)
    by (vm_compute; reflexivity).
  split; [exact H1|]. split; [exact H2|].
  exact (getBlogPosts_ignores_other_entries example_cwd example_matter
           validateFrontmatter_spec (calculateReadingTime_spec 200)
           isoDate_getTime example_fs en example_entries _ [] H1 H2).
Defined.

Lemma getBlogPosts_slugs_distinct_witness :
  example_fs !! getPostsDirectory example_cwd en
  = Some (Directory example_entries) ∧
  Forall entry_name example_entries ∧
  NoDup example_entries ∧
  (".mdx" ∉ example_entries) ∧
  NoDup (slug <$> [older_post; undated_post; newer_post]).
Proof.
  assert (H1 : Forall entry_name example_entries)
    by (apply (bool_decide_unpack _); vm_compute; exact I).
  assert (H2 : NoDup example_entries)
    by (apply (bool_decide_unpack _); vm_compute; exact I).
  assert (H3 : ".mdx" ∉ example_entries)
    by (apply (bool_decide_unpack _); vm_compute; exact I).
  split; [vm_compute; reflexivity|].
  split; [exact H1|]. split; [exact H2|]. split; [exact H3|].
  apply (getBlogPosts_slugs_distinct example_cwd example_matter
           validateFrontmatter_spec (calculateReadingTime_spec 200)
           isoDate_getTime example_fs en example_entries []
           (example_getBlogPosts example_fs en []).2);
    [vm_compute; reflexivity|exact H1|exact H2|exact H3
    |vm_compute; reflexivity].
Defined.

(** The dated directory listed in the other order. *)
Lemma getBlogPosts_listing_order_irrelevant_witness :
  dated_fs !! getPostsDirectory example_cwd en
  = Some (Directory ["01-older.mdx"; "03-newer.mdx"]) ∧
  ["03-newer.mdx"; "01-older.mdx"] ≡ₚ ["01-older.mdx"; "03-newer.mdx"] ∧
  example_getBlogPosts dated_fs en [] = (Normal [newer_post; older_post], []) ∧
  ∃ out2,
    example_getBlogPosts
      (<[getPostsDirectory example_cwd en :=
           Directory ["03-newer.mdx"; "01-older.mdx"]]> dated_fs) en []
    = (Normal [newer_post; older_post], out2).
Proof.
  split; [vm_compute; reflexivity|]. split; [apply Permutation_swap|].
  split; [vm_compute; reflexivity|].
  apply (getBlogPosts_listing_order_irrelevant example_cwd example_matter
           validateFrontmatter_spec (calculateReadingTime_spec 200)
           isoDate_getTime dated_fs en ["01-older.mdx"; "03-newer.mdx"]
           ["03-newer.mdx"; "01-older.mdx"] [] []).
  - vm_compute; reflexivity.
  - apply Permutation_swap.
  - vm_compute; reflexivity.
  - repeat constructor; eexists; vm_compute; reflexivity.
  - apply (bool_decide_unpack _). vm_compute. exact I.
Defined.

Lemma getPostsDirectory_inj_witness :
  getPostsDirectory example_cwd ja = getPostsDirectory example_cwd ja ∧
  ja = ja.
Proof.
  split; [reflexivity|].
  apply (getPostsDirectory_inj example_cwd ja ja). reflexivity.
Defined.

Lemma getGlobalIndex_row_witness :
  (Z.of_nat (length example_kana) < 2 ^ 32)%Z ∧
  example_range !! 0 = Some (of_Z 1) ∧ (0 ≤ 1)%Z ∧ safe_integer 1 ∧
  kanaGroups example_kana example_range !! 1 = Some "sa" ∧
  getGlobalIndex example_range (of_Z (Z.of_nat 1)) = of_Z (Z.of_nat 1 + 1) ∧
  (0 ≤ Z.of_nat 1 + 1)%Z ∧
  example_kana !! Z.to_nat (Z.of_nat 1 + 1) = Some "sa".
Proof.
  assert (Hsafe : safe_integer 1) by (unfold safe_integer, MAX_SAFE_INTEGER; lia).
  split; [simpl; lia|]. split; [reflexivity|]. split; [lia|].
  split; [exact Hsafe|]. split; [reflexivity|].
  apply (getGlobalIndex_row (H0 := ExactNumber_laws) example_kana
           example_range 1 1 "sa");
    [simpl; lia|reflexivity|lia|exact Hsafe|reflexivity].
Defined.

Lemma selectAllInSubset_rows_witness :
  (Z.of_nat (length example_kana) < 2 ^ 32)%Z ∧
  example_range !! 0 = Some (of_Z 1) ∧ example_range !! 1 = Some (of_Z 3) ∧
  (0 ≤ 1 ≤ 3)%Z ∧ (3 ≤ Z.of_nat (length example_kana))%Z ∧
  selectAllInSubset example_range = Some (of_Z <$> seqZ 1 (3 - 1)) ∧
  Forall2 (λ gi g, (0 ≤ gi)%Z ∧ example_kana !! Z.to_nat gi = Some g)
    (seqZ 1 (3 - 1)) (kanaGroups example_kana example_range).
Proof.
  split; [simpl; lia|]. split; [reflexivity|]. split; [reflexivity|].
  split; [lia|]. split; [simpl; lia|].
  apply (selectAllInSubset_rows (H0 := ExactNumber_laws) example_kana
           example_range 1 3);
    [simpl; lia|reflexivity|reflexivity|lia|simpl; lia].
Defined.

Lemma selectAllInSubset_checks_rows_witness :
  (Z.of_nat (length example_kana) < 2 ^ 32)%Z ∧
  example_range !! 0 = Some (of_Z 1) ∧ example_range !! 1 = Some (of_Z 3) ∧
  (0 ≤ 1 ≤ 3)%Z ∧ (3 ≤ Z.of_nat (length example_kana))%Z ∧
  selectAllInSubset example_range = Some [Exact 1; Exact 2] ∧
  [Exact 1; Exact 2] ⊆ [Exact 2; Exact 1] ∧
  0 < length (kanaGroups example_kana example_range) ∧
  isChecked example_range [Exact 2; Exact 1] (of_Z (Z.of_nat 0)) = true.
Proof.
  assert (H : [Exact 1; Exact 2] ⊆ [Exact 2; Exact 1]).
  { apply (bool_decide_unpack _). vm_compute. exact I. }
  split; [simpl; lia|]. split; [reflexivity|]. split; [reflexivity|].
  split; [lia|]. split; [simpl; lia|]. split; [reflexivity|].
  split; [exact H|]. split; [simpl; lia|].
  apply (selectAllInSubset_checks_rows (H0 := ExactNumber_laws) example_kana
           example_range [Exact 2; Exact 1] [Exact 1; Exact 2] 1 3 0);
    [simpl; lia|reflexivity|reflexivity|lia|simpl; lia|reflexivity|exact H|
     simpl; lia].
Defined.

(** A range that ends two rows beyond the table of five. *)
Lemma selectAllInSubset_beyond_table_witness :
  [Exact 3; Exact 7] !! 0 = Some (of_Z 3) ∧
  [Exact 3; Exact 7] !! 1 = Some (of_Z 7) ∧
  (0 ≤ 3 < 7)%Z ∧ (Z.of_nat (length example_kana) < 7)%Z ∧
  safe_integer 7 ∧ (7 - 3 ≤ 2 ^ 32 - 1)%Z ∧
  ∃ indices,
    selectAllInSubset [Exact 3; Exact 7] = Some indices ∧
    indices = of_Z <$> seqZ 3 (7 - 3) ∧
    (7 - 1)%Z ∈ seqZ 3 (7 - 3) ∧
    example_kana !! Z.to_nat (7 - 1) = None ∧
    length (kanaGroups example_kana [Exact 3; Exact 7]) < length indices.
Proof.
  assert (Hsafe : safe_integer 7) by (unfold safe_integer, MAX_SAFE_INTEGER; lia).
  split; [reflexivity|]. split; [reflexivity|]. split; [lia|].
  split; [simpl; lia|]. split; [exact Hsafe|]. split; [lia|].
  apply (selectAllInSubset_beyond_table (H0 := ExactNumber_laws) example_kana
           [Exact 3; Exact 7] 3 7);
    [reflexivity|reflexivity|lia|simpl; lia|exact Hsafe|lia].
Defined.

Lemma empty_sliceRange_witness :
  kanaGroups (Number := ExactNumber) example_kana [] = example_kana ∧
  getGlobalIndex [] (Exact 0) = NaN ∧
  isChecked [] [Exact 0; ExactNaN] (Exact 0)
  = array_includes [Exact 0; ExactNaN] NaN ∧
  (NaN ∈ [Exact 0; ExactNaN] →
   isChecked [] [Exact 0; ExactNaN] (Exact 0) = true) ∧
  selectAllInSubset (Number := ExactNumber) [] = Some [].
Proof.
  apply (empty_sliceRange (H0 := ExactNumber_laws) example_kana []
           [Exact 0; ExactNaN] (Exact 0)).
  reflexivity.
Defined.

Lemma dateArb_map_parses_witness :
  (2020 ≤ 2024 ≤ 2030)%Z ∧ (1 ≤ 3 ≤ 12)%Z ∧ (1 ≤ 7 ≤ 28)%Z ∧
  dateArb_map 2024 3 7 = "2024-03-07" ∧
  isoDate_getTime (dateArb_map 2024 3 7)
  = Some (daysFromCivil 2024 3 7 * msPerDay)%Z.
Proof.
  split; [lia|]. split; [lia|]. split; [lia|].
  split; [vm_compute; reflexivity|].
  apply dateArb_map_parses; lia.
Defined.
